(** * A shallow embedding of the [myshell] command interpreter

    Sources embedded here:
    - [include/CommandFactory.h]: [CommandFactory::splitString],
      [CommandFactory::createCommand];
    - [include/Command.h]: [Command::expandVariables], [EchoCommand::execute],
      [ExternalCommand::execute], [ExitCommand::execute],
      [HistoryCommand::execute];
    - [src/main.cpp]: the constants of the (absent) header [constants.h].

    A [std::string] is a [string]; a [std::vector<std::string>] is a
    [list string]; a [size_t] index is a [nat] ([std::string::npos] is
    [None]); the [int] line counter of the history listing is a [Z] checked
    against [INT_MAX].  Loops run on fuel; the loops over a text are shown
    to finish within the fuel their callers hand them, and the recursion of
    the external command is shown to finish or not, as the world has it. *)

From Stdlib Require Import String Ascii List ZArith Lia Bool Arith.
From Stdlib Require Import DecimalString.
Import ListNotations.
Open Scope string_scope.

(** ** Outcomes of a piece of C++ code *)

Inductive outcome (A : Type) : Type :=
| Ret (a : A)               (* normal completion *)
| Throw (what : string)     (* a C++ exception leaves the function *)
| Undefined                 (* the C++ standard gives the step no meaning *)
| OutOfFuel.                (* the model's loop budget ran out *)

Arguments Ret {A} a.
Arguments Throw {A} what.
Arguments Undefined {A}.
Arguments OutOfFuel {A}.

Definition bind {A B : Type} (m : outcome A) (k : A -> outcome B) : outcome B :=
  match m with
  | Ret a => k a
  | Throw w => Throw w
  | Undefined => Undefined
  | OutOfFuel => OutOfFuel
  end.

Notation "x <- m ;; k" := (bind m (fun x => k))
  (at level 61, m at next level, right associativity).

(** ** The parts of [std::string] the shell uses *)

Module Cxx.

(** Whether [c] is one of the characters of [chars]. *)
Fixpoint mem (c : ascii) (chars : string) : bool :=
  match chars with
  | EmptyString => false
  | String d chars' => if Ascii.eqb c d then true else mem c chars'
  end.

(** [str.find_first_of(chars, pos)]: the least index [>= pos] holding a
    character of [chars]; [None] is [npos]. *)
Fixpoint find_first_of (str chars : string) (pos : nat) : option nat :=
  match str with
  | EmptyString => None
  | String c rest =>
      match pos with
      | O => if mem c chars then Some O
             else option_map S (find_first_of rest chars O)
      | S p => option_map S (find_first_of rest chars p)
      end
  end.

(** [str.substr(pos, len)]: throws [std::out_of_range] when
    [pos > size()], and clamps [len] to what is left. *)
Definition substr (str : string) (pos len : nat) : outcome string :=
  if (String.length str <? pos)%nat then Throw "basic_string::substr"
  else Ret (substring pos len str).

(** [str.substr(pos)], the length defaulting to [npos]. *)
Definition substr_from (str : string) (pos : nat) : outcome string :=
  substr str pos (String.length str - pos).

(** [str[i]]: the character at [i], the terminating NUL at [i == size()],
    undefined beyond. *)
Definition index (str : string) (i : nat) : outcome ascii :=
  match get i str with
  | Some c => Ret c
  | None => if (i =? String.length str)%nat then Ret zero else Undefined
  end.

(** [s.c_str()] as a C function reads it: the characters before the first
    NUL. *)
Fixpoint c_str (s : string) : string :=
  match s with
  | EmptyString => EmptyString
  | String c s' => if Ascii.eqb c zero then EmptyString else String c (c_str s')
  end.

(** [v[i]] on a vector: undefined when [i >= size()]. *)
Definition vec_index {A : Type} (v : list A) (i : nat) : outcome A :=
  match nth_error v i with
  | Some a => Ret a
  | None => Undefined
  end.

(** The suffix of [s] from position [n] (a proof device: the loops below
    never build it). *)
Fixpoint drop (n : nat) (s : string) : string :=
  match n, s with
  | O, _ => s
  | S n', EmptyString => EmptyString
  | S n', String _ s' => drop n' s'
  end.

(** No character of [s] belongs to [chars]. *)
Fixpoint free_of (chars s : string) : bool :=
  match s with
  | EmptyString => true
  | String c s' => negb (mem c chars) && free_of chars s'
  end.

End Cxx.

(** ** Constants ([constants.h], as [main.cpp] spells them) *)

Definition CHILD_CREATION_FAILED : string := "Failed to create child process".
Definition SPACE : string := " ".
Definition BACKGROUND_PROCESS : string := "&".
Definition EXIT_COMMAND : string := "exit".
Definition HISTORY_FILE : string := "history.txt".

(** ** [CommandFactory::splitString] *)

(** One run of the [while] loop and of the statement after it.  [end_ - start]
    never wraps: [find_first_of] searches from [start] on. *)
Fixpoint splitString_loop (fuel : nat) (str delimiters : string)
         (start : nat) (tokens : list string) : outcome (list string) :=
  match fuel with
  | O => OutOfFuel
  | S fuel' =>
      match Cxx.find_first_of str delimiters start with
      | Some end_ =>
          tokens' <- (if negb (end_ =? start)%nat
                      then tok <- Cxx.substr str start (end_ - start) ;;
                           Ret (tokens ++ [tok])%list
                      else Ret tokens) ;;
          splitString_loop fuel' str delimiters (end_ + 1) tokens'
      | None =>
          if negb (start =? String.length str)%nat
          then tok <- Cxx.substr_from str start ;; Ret (tokens ++ [tok])%list
          else Ret tokens
      end
  end.

Definition splitString (str delimiters : string) : outcome (list string) :=
  splitString_loop (S (String.length str)) str delimiters 0 [].

(** What the tokenizer is to compute, by recursion on the text: the fields
    between delimiter occurrences, and of those the non-empty ones. *)
Fixpoint fields (delimiters s : string) : list string :=
  match s with
  | EmptyString => [EmptyString]
  | String c s' =>
      if Cxx.mem c delimiters then EmptyString :: fields delimiters s'
      else match fields delimiters s' with
           | f :: fs => String c f :: fs
           | [] => [String c EmptyString]
           end
  end.

Definition nonempty (s : string) : bool :=
  match s with EmptyString => false | _ => true end.

Definition tokens_spec (delimiters s : string) : list string :=
  filter nonempty (fields delimiters s).

(** The text with every delimiter character removed. *)
Fixpoint strip_delimiters (delimiters s : string) : string :=
  match s with
  | EmptyString => EmptyString
  | String c s' =>
      if Cxx.mem c delimiters then strip_delimiters delimiters s'
      else String c (strip_delimiters delimiters s')
  end.

(** ** The world outside the interpreter *)

(** What the operating system answers.  [fork_succeeds] is asked with the
    number of [fork] calls that precede this one on the chain of processes
    leading to the caller (0 for the interpreter itself). *)
Record World : Type := {
  getenv : string -> option string;
  execvp_succeeds : list string -> bool;
  fork_succeeds : nat -> bool;
  open_for_reading : string -> option string
}.

(** ** [Command::expandVariables] *)

Definition dollar : ascii := "$"%char.
Definition open_brace : ascii := "{"%char.

(** The second disjunct of the loop's [else if]; [&&] evaluates [str[end - 1]]
    only after [end > start + 1]. *)
Definition brace_test (str : string) (start end_ : nat) (c : ascii)
  : outcome bool :=
  if Ascii.eqb c open_brace && (start + 1 <? end_)%nat
  then c' <- Cxx.index str (end_ - 1) ;; Ret (Ascii.eqb c' dollar)
  else Ret false.

(** [result += varValue] under [if (varValue != nullptr)]. *)
Definition append_value (w : World) (varName result : string) : string :=
  match getenv w (Cxx.c_str varName) with
  | Some varValue => result ++ varValue
  | None => result
  end.

(** The [while] loop and the statement after it.  The subtractions stand
    under guards ([end > start + 1]) that keep them from wrapping. *)
Fixpoint expandVariables_loop (w : World) (fuel : nat) (str : string)
         (start : nat) (result : string) : outcome string :=
  match fuel with
  | O => OutOfFuel
  | S fuel' =>
      match Cxx.find_first_of str "$}" start with
      | Some end_ =>
          c <- Cxx.index str start ;;
          if Ascii.eqb c dollar && (start + 1 <? end_)%nat
          then varName <- Cxx.substr str (start + 1) (end_ - start - 1) ;;
               expandVariables_loop w fuel' str (end_ + 1)
                                    (append_value w varName result)
          else
            braced <- brace_test str start end_ c ;;
            if (braced : bool)
            then varName <- Cxx.substr str (start + 2) (end_ - start - 2) ;;
                 expandVariables_loop w fuel' str (end_ + 1)
                                      (append_value w varName result)
            else piece <- Cxx.substr str start (end_ - start + 1) ;;
                 expandVariables_loop w fuel' str (end_ + 1) (result ++ piece)
      | None =>
          if negb (start =? String.length str)%nat
          then rest <- Cxx.substr_from str start ;; Ret (result ++ rest)
          else Ret result
      end
  end.

Definition expandVariables (w : World) (str : string) : outcome string :=
  expandVariables_loop w (S (String.length str)) str 0 "".

(** ** The command variants ([Command] and its four subclasses) *)

Inductive Command : Type :=
| ExitCommand
| HistoryCommand
| EchoCommand (args : list string)
| ExternalCommand (args : list string) (runInBackground : bool).

(** ** [CommandFactory::createCommand] *)

(** [!tokens.empty() && tokens.back() == BACKGROUND_PROCESS]. *)
Definition ends_in_background_marker (tokens : list string) : bool :=
  match tokens with
  | [] => false
  | _ :: _ => last tokens "" =? BACKGROUND_PROCESS
  end.

(** The body of [createCommand] below the call of [splitString]. *)
Definition classify (tokens : list string) : outcome Command :=
  let runInBackground := ends_in_background_marker tokens in
  let tokens := if runInBackground then removelast tokens else tokens in
  token0 <- Cxx.vec_index tokens 0 ;;
  if token0 =? EXIT_COMMAND then Ret ExitCommand
  else if token0 =? "myhistory" then Ret HistoryCommand
  else if token0 =? "echo" then Ret (EchoCommand tokens)
  else Ret (ExternalCommand tokens runInBackground).

Definition createCommand (input : string) : outcome Command :=
  tokens <- splitString input SPACE ;;
  classify tokens.

(** ** [EchoCommand::execute] *)

(** [std::endl] as the characters it writes. *)
Definition endl : string := String (ascii_of_nat 10) EmptyString.

(** [for (size_t i = from; i < from + count; ++i) body]. *)
Fixpoint for_loop {S : Type} (count from : nat)
         (body : nat -> S -> outcome S) (s : S) : outcome S :=
  match count with
  | O => Ret s
  | Datatypes.S count' => s' <- body from s ;;
                          for_loop count' (Datatypes.S from) body s'
  end.

(** The loop body: what [std::cout] holds afterwards. *)
Definition echo_body (w : World) (args : list string) (i : nat)
           (cout : string) : outcome string :=
  arg <- Cxx.vec_index args i ;;
  expandedArg <- expandVariables w arg ;;
  Ret (cout ++ expandedArg ++ " ").

Definition EchoCommand_execute (w : World) (args : list string)
  : outcome string :=
  cout <- for_loop (List.length args - 1) 1 (echo_body w args) "" ;;
  Ret (cout ++ endl).

(** What echo is to write for the argument words [words]. *)
Definition spaced (words : list string) : string :=
  fold_right (fun word rest => word ++ " " ++ rest) "" words.

(** ** [HistoryCommand::execute] *)

Definition INT_MAX : Z := 2147483647.

(** [std::cout << count] for an [int]. *)
Definition decimal (count : Z) : string :=
  NilZero.string_of_int (Z.to_int count).

(** The characters before the first newline, and those behind it. *)
Fixpoint cut_line (s : string) : string * string :=
  match s with
  | EmptyString => (EmptyString, EmptyString)
  | String c s' =>
      if Ascii.eqb c (ascii_of_nat 10) then (EmptyString, s')
      else let (line, rest) := cut_line s' in (String c line, rest)
  end.

(** [std::getline(stream, line)] on the unread part of a stream: it fails
    exactly when nothing at all is left to extract. *)
Definition getline (unread : string) : option (string * string) :=
  match unread with
  | EmptyString => None
  | _ => Some (cut_line unread)
  end.

(** The [while] loop; [count++] on [INT_MAX] is signed overflow. *)
Fixpoint HistoryCommand_loop (fuel : nat) (unread : string) (count : Z)
         (cout : string) : outcome string :=
  match fuel with
  | O => OutOfFuel
  | S fuel' =>
      match getline unread with
      | None => Ret cout
      | Some (line, unread') =>
          let cout' := cout ++ decimal count ++ ". " ++ line ++ endl in
          if (count =? INT_MAX)%Z then Undefined
          else HistoryCommand_loop fuel' unread' (count + 1)%Z cout'
      end
  end.

(** A stream that failed to open fails its first [getline]. *)
Definition HistoryCommand_execute (w : World) : outcome string :=
  match open_for_reading w HISTORY_FILE with
  | None => Ret ""
  | Some content =>
      HistoryCommand_loop (S (String.length content)) content 1%Z ""
  end.

(** The lines [getline] hands out one after the other, by recursion on the
    text. *)
Fixpoint lines_of (content : string) : list string :=
  match content with
  | EmptyString => []
  | String c s' =>
      if Ascii.eqb c (ascii_of_nat 10) then EmptyString :: lines_of s'
      else match lines_of s' with
           | l :: ls => String c l :: ls
           | [] => [String c EmptyString]
           end
  end.

(** The listing the history command is to print for [lines], the first of
    them numbered [first]. *)
Fixpoint numbered (first : Z) (lines : list string) : string :=
  match lines with
  | [] => ""
  | l :: ls => decimal first ++ ". " ++ l ++ endl ++ numbered (first + 1)%Z ls
  end.

(** ** [ExternalCommand::execute] *)

(** What became of one call: of the process that called [fork], and of the
    child it got. *)
Inductive Run : Type :=
| ForkFailed                          (* [pid == -1]: the caller throws *)
| Forked (waited : bool) (child : Child)
                                      (* the caller waited, or did not *)
with Child : Type :=
| ImageReplaced (argv : list string)  (* [execvp] took the child over *)
| PrintedVariable (cout : string)     (* [getenv(args[0])] was printed *)
| Delegated (newArgs : list string) (inner : Run)
                                      (* the child ran [execute] again *)
| ChildUndefined.                     (* [argv[0]] is the null pointer *)

(** [command] after [if (command[0] == '$') command = command.substr(1)]. *)
Definition strip_dollar (command : string) : outcome string :=
  c <- Cxx.index command 0 ;;
  if Ascii.eqb c dollar then Cxx.substr_from command 1 else Ret command.

Fixpoint ExternalCommand_execute (w : World) (fuel depth : nat)
         (args : list string) (runInBackground : bool) : outcome Run :=
  match fuel with
  | O => OutOfFuel
  | S fuel' =>
      if negb (fork_succeeds w depth) then Ret ForkFailed
      else
        child <-
          match args with
          | [] => Ret ChildUndefined
          | arg0 :: _ =>
              let argv := map Cxx.c_str args in
              if execvp_succeeds w argv then Ret (ImageReplaced argv)
              else
                match getenv w (Cxx.c_str arg0) with
                | Some varValue => Ret (PrintedVariable (varValue ++ endl))
                | None =>
                    command <- strip_dollar arg0 ;;
                    let newArgs := ["/bin/sh"; "-c"; command] in
                    inner <- ExternalCommand_execute w fuel' (S depth)
                                                     newArgs runInBackground ;;
                    Ret (Delegated newArgs inner)
                end
          end ;;
        Ret (Forked (negb runInBackground) child)
  end.

(** How many times the child lineage ran [execute] again. *)
Fixpoint delegations (r : Run) : nat :=
  match r with
  | ForkFailed => 0
  | Forked _ (Delegated _ inner) => S (delegations inner)
  | Forked _ _ => 0
  end.

(** Whether the lineage ended in a [fork] that failed. *)
Fixpoint ends_in_fork_failure (r : Run) : bool :=
  match r with
  | ForkFailed => true
  | Forked _ (Delegated _ inner) => ends_in_fork_failure inner
  | Forked _ _ => false
  end.

(** The argument vectors the children of the lineage ran [execute] again
    with, the first delegation first. *)
Fixpoint delegated_vectors (r : Run) : list (list string) :=
  match r with
  | ForkFailed => []
  | Forked _ (Delegated newArgs inner) => newArgs :: delegated_vectors inner
  | Forked _ _ => []
  end.

(** The vector every delegation of a shell invocation hands on. *)
Definition shell_of_shell : list string := ["/bin/sh"; "-c"; "/bin/sh"].

(** ** [Command::execute], the virtual call *)

Inductive Effect : Type :=
| Printed (cout : string)     (* returned, having written [cout] *)
| Exited (status : Z)         (* [exit(status)] *)
| Spawned (r : Run).          (* returned from a successful [fork] *)

Definition execute (w : World) (fuel : nat) (c : Command) : outcome Effect :=
  match c with
  | ExitCommand => Ret (Exited 0)
  | HistoryCommand => cout <- HistoryCommand_execute w ;; Ret (Printed cout)
  | EchoCommand args => cout <- EchoCommand_execute w args ;; Ret (Printed cout)
  | ExternalCommand args runInBackground =>
      r <- ExternalCommand_execute w fuel 0 args runInBackground ;;
      match r with
      | ForkFailed => Throw CHILD_CREATION_FAILED
      | Forked _ _ => Ret (Spawned r)
      end
  end.

(** ** Worlds to run the definitions in *)

Definition no_file : string -> option string := fun _ => None.

(** [NAME=bob] is the whole environment. *)
Definition world_bob : World := {|
  getenv := fun name => if name =? "NAME" then Some "bob" else None;
  execvp_succeeds := fun _ => false;
  fork_succeeds := fun _ => true;
  open_for_reading := no_file
|}.

(** [HOME=/root]; [/bin/sh] can be executed, nothing else can. *)
Definition world_home : World := {|
  getenv := fun name => if name =? "HOME" then Some "/root" else None;
  execvp_succeeds := fun argv =>
    match argv with
    | prog :: _ => prog =? "/bin/sh"
    | [] => false
    end;
  fork_succeeds := fun _ => true;
  open_for_reading := no_file
|}.

(** No variable is set, no program can be executed (not even [/bin/sh]),
    [fork] never fails. *)
Definition world_no_shell : World := {|
  getenv := fun _ => None;
  execvp_succeeds := fun _ => false;
  fork_succeeds := fun _ => true;
  open_for_reading := no_file
|}.

(** As [world_no_shell], but the fourth [fork] in a row fails. *)
Definition world_fork_limit : World := {|
  getenv := fun _ => None;
  execvp_succeeds := fun _ => false;
  fork_succeeds := fun depth => (depth <? 3)%nat;
  open_for_reading := no_file
|}.

(** [PATH] is set; nothing can be executed; [fork] never fails. *)
Definition world_path_no_shell : World := {|
  getenv := fun name => if name =? "PATH" then Some "/nowhere" else None;
  execvp_succeeds := fun _ => false;
  fork_succeeds := fun _ => true;
  open_for_reading := no_file
|}.

(** As [world_path_no_shell], but the fourth [fork] in a row fails. *)
Definition world_path_fork_limit : World := {|
  getenv := fun name => if name =? "PATH" then Some "/nowhere" else None;
  execvp_succeeds := fun _ => false;
  fork_succeeds := fun depth => (depth <? 3)%nat;
  open_for_reading := no_file
|}.

(** A history log of three lines. *)
Definition world_log3 : World := {|
  getenv := fun _ => None;
  execvp_succeeds := fun _ => false;
  fork_succeeds := fun _ => true;
  open_for_reading := fun path =>
    if path =? HISTORY_FILE
    then Some ("ls" ++ endl ++ "echo hi" ++ endl ++ "myhistory" ++ endl)
    else None
|}.

(** A history log of [INT_MAX] empty lines. *)
Fixpoint newlines (n : nat) : string :=
  match n with
  | O => EmptyString
  | S n' => String (ascii_of_nat 10) (newlines n')
  end.

Definition long_log : string := newlines (Z.to_nat INT_MAX).

Definition world_long_log : World := {|
  getenv := fun _ => None;
  execvp_succeeds := fun _ => false;
  fork_succeeds := fun _ => true;
  open_for_reading := fun path =>
    if path =? HISTORY_FILE then Some long_log else None
|}.

(** ** [Invoker::executeCommand] *)

(** [Command::execute] called in a process that [depth] calls of [fork]
    lead to from the interpreter ([execute] is the case of depth 0). *)
Definition execute_at (w : World) (fuel depth : nat) (c : Command)
  : outcome Effect :=
  match c with
  | ExitCommand => Ret (Exited 0)
  | HistoryCommand => cout <- HistoryCommand_execute w ;; Ret (Printed cout)
  | EchoCommand args => cout <- EchoCommand_execute w args ;; Ret (Printed cout)
  | ExternalCommand args runInBackground =>
      r <- ExternalCommand_execute w fuel depth args runInBackground ;;
      match r with
      | ForkFailed => Throw CHILD_CREATION_FAILED
      | Forked _ _ => Ret (Spawned r)
      end
  end.

(** How a call of the invoker came to its end in one process. *)
Inductive Ending : Type :=
| Returned                      (* the queue was drained *)
| ProcessExited (status : Z)    (* a command called [exit] *)
| Threw (what : string)         (* a command's exception left the call *)
| WentUndefined
| RanOutOfFuel.

(** What became of a process that a call of [ExternalCommand::execute]
    gave birth to, as far as the invoker's loop goes.  The body of
    [execute] has no [exit]: a child that is not taken over by [execvp]
    comes back from [execute] into the loop of its copy of the invoker. *)
Inductive Fate : Type :=
| Replaced      (* [execvp] took it over: it never comes back *)
| Returns       (* it printed a variable, or its second [execute] returned *)
| Throws        (* its second [execute] threw: the [fork] in it failed *)
| Undefines.    (* it met the null pointer as [argv[0]] *)

(** The processes of a lineage, the child of the caller first. *)
Fixpoint born (r : Run) : list Fate :=
  match r with
  | ForkFailed => []
  | Forked _ child =>
      match child with
      | ImageReplaced _ => [Replaced]
      | PrintedVariable _ => [Returns]
      | ChildUndefined => [Undefines]
      | Delegated _ inner =>
          match inner with
          | ForkFailed => Throws
          | Forked _ _ => Returns
          end :: born inner
      end
  end.

Definition born_by (e : Effect) : list Fate :=
  match e with
  | Spawned r => born r
  | _ => []
  end.

(** One process in the invoker's loop: the effects of the commands it
    executed, in order; its queue and its ending when the loop was left; and
    the processes born meanwhile that came back into the loop, or left it at
    once, each with what it did in turn. *)
#[warnings="-register-all"]
Inductive Process : Type :=
| Process_of (effects : list Effect) (commandQueue : list Command)
             (ending : Ending) (offspring : list Process).

(** The processes born with the fates [fates], the first of them [depth]
    calls of [fork] away from the interpreter: a child that returns goes on
    in the loop, a child that throws or meets undefined behaviour leaves it
    with its queue as it was. *)
Fixpoint offspring (go_on : nat -> Process) (stuck : Ending -> Process)
         (depth : nat) (fates : list Fate) : list Process :=
  match fates with
  | [] => []
  | fate :: later =>
      (match fate with
       | Replaced => []
       | Returns => [go_on depth]
       | Throws => [stuck (Threw CHILD_CREATION_FAILED)]
       | Undefines => [stuck WentUndefined]
       end ++ offspring go_on stuck (S depth) later)%list
  end.

(** The [while] loop over [commandQueue] in a process [depth] forks away
    from the interpreter: every round pops the front and nothing is pushed
    meanwhile, so the rounds follow the queue.  A child that comes back from
    the front command's [execute] holds a copy of the queue with that
    command at its front; it pops it and runs the rest as well. *)
Fixpoint Invoker_loop (w : World) (fuel : nat) (commandQueue : list Command)
         (depth : nat) (done : list Effect) (kids : list Process)
         {struct commandQueue} : Process :=
  match commandQueue with
  | [] => Process_of done [] Returned kids
  | frontCommand :: rest =>
      match execute_at w fuel depth frontCommand with
      | Ret (Exited status) =>
          Process_of done commandQueue (ProcessExited status) kids
      | Ret effect =>
          Invoker_loop w fuel rest depth (done ++ [effect])
            (kids ++ offspring (fun d => Invoker_loop w fuel rest d [] [])
                               (fun ending =>
                                  Process_of [] commandQueue ending [])
                               (S depth) (born_by effect))
      | Throw what => Process_of done commandQueue (Threw what) kids
      | Undefined => Process_of done commandQueue WentUndefined kids
      | OutOfFuel => Process_of done commandQueue RanOutOfFuel kids
      end
  end.

(** The call in the interpreter, [commandQueue] being what earlier calls
    left queued. *)
Definition Invoker_executeCommand (w : World) (fuel : nat)
           (commandQueue : list Command) (command : Command) : Process :=
  Invoker_loop w fuel (commandQueue ++ [command]) 0 [] [].

(** The offspring of a run of the loop over [queue] followed by [behind],
    the commands of [queue] having had the effects [effects]. *)
Fixpoint kids_of (w : World) (fuel depth : nat) (behind queue : list Command)
         (effects : list Effect) : list Process :=
  match queue, effects with
  | c :: rest, e :: es =>
      (offspring (fun d => Invoker_loop w fuel (rest ++ behind) d [] [])
                 (fun ending => Process_of [] (c :: rest ++ behind) ending [])
                 (S depth) (born_by e)
       ++ kids_of w fuel depth behind rest es)%list
  | _, _ => []
  end.

Definition is_external (c : Command) : bool :=
  match c with
  | ExternalCommand _ _ => true
  | _ => false
  end.

(** ** [executeCommand], the free function of [main.cpp] *)

Inductive FreeRun : Type :=
| Echoed (cout : string)              (* the echo branch wrote [cout] *)
| FreeForkFailed                      (* [pid == -1]: the caller throws *)
| FreeForked (waited : bool) (child : FreeChild)
with FreeChild : Type :=
| FreeImageReplaced (argv : list string)
| FreePrintedVariable (cout : string)
| FreeDelegated (newArgs : list string) (inner : FreeRun)
| FreeChildUndefined.

(** [args.size() > 1 && args[0] == "echo"]. *)
Definition is_echo_with_arguments (args : list string) : bool :=
  (1 <? List.length args)%nat && (hd "" args =? "echo").

Fixpoint executeCommand (w : World) (fuel depth : nat)
         (args : list string) (runInBackground : bool) : outcome FreeRun :=
  match fuel with
  | O => OutOfFuel
  | S fuel' =>
      if is_echo_with_arguments args
      then cout <- for_loop (List.length args - 1) 1 (echo_body w args) "" ;;
           Ret (Echoed (cout ++ endl))
      else
        if negb (fork_succeeds w depth) then Ret FreeForkFailed
        else
          child <-
            match args with
            | [] => Ret FreeChildUndefined
            | arg0 :: _ =>
                let argv := map Cxx.c_str args in
                if execvp_succeeds w argv then Ret (FreeImageReplaced argv)
                else
                  match getenv w (Cxx.c_str arg0) with
                  | Some varValue =>
                      Ret (FreePrintedVariable (varValue ++ endl))
                  | None =>
                      command <- strip_dollar arg0 ;;
                      let newArgs := ["/bin/sh"; "-c"; command] in
                      inner <- executeCommand w fuel' (S depth)
                                              newArgs runInBackground ;;
                      Ret (FreeDelegated newArgs inner)
                  end
            end ;;
          Ret (FreeForked (negb runInBackground) child)
  end.

(** A run of the class as a run of the free function. *)
Fixpoint of_Run (r : Run) : FreeRun :=
  match r with
  | ForkFailed => FreeForkFailed
  | Forked waited child =>
      FreeForked waited
        match child with
        | ImageReplaced argv => FreeImageReplaced argv
        | PrintedVariable cout => FreePrintedVariable cout
        | Delegated newArgs inner => FreeDelegated newArgs (of_Run inner)
        | ChildUndefined => FreeChildUndefined
        end
  end.

(** ** Notions the further facts are stated with *)

(** Every character of [s] belongs to [chars]. *)
Fixpoint all_in (chars s : string) : bool :=
  match s with
  | EmptyString => true
  | String c s' => Cxx.mem c chars && all_in chars s'
  end.

(** The tokens with one [sep] between neighbours. *)
Fixpoint join_with (sep : ascii) (tokens : list string) : string :=
  match tokens with
  | [] => EmptyString
  | [t] => t
  | t :: ts => t ++ String sep (join_with sep ts)
  end.

(** What [historyFile << input << std::endl] ([main.cpp], the loop of
    [main]) has put into an empty log after the lines [inputs]. *)
Fixpoint logged (inputs : list string) : string :=
  match inputs with
  | [] => EmptyString
  | input :: later => input ++ endl ++ logged later
  end.

(** Every process of the lineage that forked waited, or did not, as
    [waited] says. *)
Fixpoint all_waited (waited : bool) (r : Run) : bool :=
  match r with
  | ForkFailed => true
  | Forked waited' child =>
      Bool.eqb waited' waited &&
      match child with
      | Delegated _ inner => all_waited waited inner
      | _ => true
      end
  end.

(** Some child of the lineage met the null pointer as [argv[0]]. *)
Fixpoint meets_null_argv (r : Run) : bool :=
  match r with
  | ForkFailed => false
  | Forked _ ChildUndefined => true
  | Forked _ (Delegated _ inner) => meets_null_argv inner
  | Forked _ _ => false
  end.

(** The command [c] comes back from [execute] with the effect [e]. *)
Definition returns (w : World) (fuel : nat) (c : Command) (e : Effect) : Prop :=
  execute w fuel c = Ret e /\ forall status, e <> Exited status.

(** A world whose history log holds [content]. *)
Definition world_with_log (content : string) : World := {|
  getenv := fun _ => None;
  execvp_succeeds := fun _ => false;
  fork_succeeds := fun _ => true;
  open_for_reading := fun path =>
    if path =? HISTORY_FILE then Some content else None
|}.


(** * Facts *)

(** ** Strings by position *)

Module CxxFacts.
Import Cxx.

Lemma drop_nil n : drop n "" = "".
Proof. destruct n; reflexivity. Qed.

Lemma drop_length n s : String.length (drop n s) = String.length s - n.
Proof.
  revert s; induction n as [|n IH]; intros s; simpl; [lia|].
  destruct s; simpl; auto.
Qed.

Lemma drop_add n m s : drop (n + m) s = drop m (drop n s).
Proof.
  revert s; induction n as [|n IH]; intros s; simpl; auto.
  destruct s; simpl; auto. now rewrite drop_nil.
Qed.

Lemma drop_all s : drop (String.length s) s = "".
Proof. induction s; simpl; auto. Qed.

Lemma substring_drop n m s : substring n m s = substring 0 m (drop n s).
Proof.
  revert s; induction n as [|n IH]; intros s; simpl; auto.
  destruct s; simpl; auto. destruct m; reflexivity.
Qed.

Lemma substring_whole s : substring 0 (String.length s) s = s.
Proof. induction s; simpl; congruence. Qed.

Lemma substring_prefix pre rest :
  substring 0 (String.length pre) (pre ++ rest) = pre.
Proof.
  induction pre; simpl; [destruct rest; reflexivity | congruence].
Qed.

Lemma drop_prefix pre rest : drop (String.length pre) (pre ++ rest) = rest.
Proof. induction pre; simpl; auto. Qed.

Lemma get_drop n j s : get (n + j) s = get j (drop n s).
Proof.
  revert s; induction n as [|n IH]; intros s; simpl; auto.
  destruct s; simpl; auto.
Qed.

Lemma get_prefix pre rest j :
  j < String.length pre -> get j (pre ++ rest) = get j pre.
Proof.
  revert j; induction pre; simpl; intros j H; [lia|].
  destruct j; auto. apply IHpre; lia.
Qed.

Lemma get_in_range s j : j < String.length s -> exists c, get j s = Some c.
Proof.
  revert j; induction s; simpl; intros j H; [lia|].
  destruct j; eauto. apply IHs; lia.
Qed.

Lemma append_nil_r s : s ++ "" = s.
Proof. induction s; simpl; congruence. Qed.

Lemma append_assoc a b c : (a ++ b) ++ c = a ++ b ++ c.
Proof. induction a; simpl; congruence. Qed.

Lemma append_length a b :
  String.length (a ++ b) = String.length a + String.length b.
Proof. induction a; simpl; congruence. Qed.

Lemma free_of_get chars s j c :
  free_of chars s = true -> get j s = Some c -> mem c chars = false.
Proof.
  revert j; induction s as [|d s IH]; simpl; intros j F G; [discriminate|].
  apply andb_prop in F as [F1 F2].
  destruct j.
  - injection G as <-. now apply negb_true_iff.
  - eauto.
Qed.

(** A search from position 0, told by what it splits the text into. *)
Lemma find_first_of_hit s chars k :
  find_first_of s chars 0 = Some k ->
  exists pre c rest,
    s = pre ++ String c rest /\ String.length pre = k /\
    free_of chars pre = true /\ mem c chars = true.
Proof.
  revert k; induction s as [|d s IH]; simpl; intros k H; [discriminate|].
  destruct (mem d chars) eqn:M.
  - injection H as <-. exists "", d, s. auto.
  - destruct (find_first_of s chars 0) as [k'|]; [|discriminate].
    injection H as <-.
    destruct (IH k' eq_refl) as (pre & c & rest & -> & L & F & Mc).
    exists (String d pre), c, rest. simpl. rewrite M, L, F. auto.
Qed.

Lemma find_first_of_miss s chars :
  find_first_of s chars 0 = None -> free_of chars s = true.
Proof.
  induction s as [|d s IH]; simpl; auto.
  destruct (mem d chars); [discriminate|].
  destruct (find_first_of s chars 0); [discriminate|]. auto.
Qed.

(** A search from [pos] is a search from 0 in the suffix at [pos]. *)
Lemma find_first_of_drop str chars pos :
  find_first_of str chars pos =
  option_map (Nat.add pos) (find_first_of (drop pos str) chars 0).
Proof.
  revert pos; induction str as [|d s IH]; intros pos.
  - rewrite drop_nil. reflexivity.
  - destruct pos; simpl.
    + destruct (mem d chars); auto.
      destruct (find_first_of s chars 0); reflexivity.
    + rewrite IH. destruct (find_first_of (drop pos s) chars 0); reflexivity.
Qed.

(** The loops' view of one search: where it stops, and the pieces of the
    text around that place. *)
Lemma search_hit str chars start end_ :
  start <= String.length str ->
  find_first_of str chars start = Some end_ ->
  exists pre c rest,
    drop start str = pre ++ String c rest /\
    end_ = start + String.length pre /\
    end_ < String.length str /\
    free_of chars pre = true /\ mem c chars = true /\
    drop (end_ + 1) str = rest.
Proof.
  intros Hs H. rewrite find_first_of_drop in H.
  destruct (find_first_of (drop start str) chars 0) as [k|] eqn:E;
    [|discriminate].
  injection H as <-.
  destruct (find_first_of_hit _ _ _ E) as (pre & c & rest & D & L & F & M).
  exists pre, c, rest. subst k. repeat split; auto.
  - assert (HL := drop_length start str). rewrite D in HL.
    rewrite append_length in HL. simpl in HL. lia.
  - replace (start + String.length pre + 1)
      with (start + (String.length pre + 1)) by lia.
    rewrite drop_add, D, drop_add, drop_prefix. reflexivity.
Qed.

Lemma search_miss str chars start :
  find_first_of str chars start = None ->
  free_of chars (drop start str) = true.
Proof.
  intros H. rewrite find_first_of_drop in H.
  destruct (find_first_of (drop start str) chars 0) eqn:E; [discriminate|].
  now apply find_first_of_miss.
Qed.

Lemma substr_ok str pos len :
  pos <= String.length str ->
  substr str pos len = Ret (substring 0 len (drop pos str)).
Proof.
  intros H. unfold substr.
  destruct (Nat.ltb_spec (String.length str) pos); [lia|].
  now rewrite substring_drop.
Qed.

Lemma substr_from_ok str pos :
  pos <= String.length str -> substr_from str pos = Ret (drop pos str).
Proof.
  intros H. unfold substr_from. rewrite substr_ok by auto.
  rewrite <- drop_length, substring_whole. reflexivity.
Qed.

Lemma index_ok str i :
  i <= String.length str ->
  index str i = Ret (match get 0 (drop i str) with
                     | Some c => c
                     | None => zero
                     end).
Proof.
  intros H. unfold index.
  replace i with (i + 0) at 1 by lia. rewrite get_drop.
  destruct (get 0 (drop i str)) eqn:G; auto.
  destruct (Nat.eqb_spec i (String.length str)); auto.
  assert (0 < String.length (drop i str)) by (rewrite drop_length; lia).
  destruct (get_in_range _ _ H0); congruence.
Qed.

End CxxFacts.

(** ** The tokenizer *)

Section Tokenizer.
Import Cxx CxxFacts.
Variable delimiters : string.

Lemma fields_free s :
  free_of delimiters s = true -> fields delimiters s = [s].
Proof.
  induction s as [|c s IH]; simpl; auto.
  intros F. apply andb_prop in F as [M F].
  apply negb_true_iff in M. rewrite M, IH; auto.
Qed.

Lemma fields_at_delimiter pre c rest :
  free_of delimiters pre = true -> mem c delimiters = true ->
  fields delimiters (pre ++ String c rest) = pre :: fields delimiters rest.
Proof.
  intros F M. induction pre as [|d pre IH]; simpl.
  - now rewrite M.
  - simpl in F. apply andb_prop in F as [Md F].
    apply negb_true_iff in Md. rewrite Md, IH; auto.
Qed.

Lemma fields_all_free s :
  Forall (fun f => free_of delimiters f = true) (fields delimiters s).
Proof.
  induction s as [|c s IH]; simpl; [repeat constructor|].
  destruct (mem c delimiters) eqn:M; [constructor; auto|].
  destruct (fields delimiters s) as [|f fs]; inversion IH; subst;
    constructor; simpl; auto; rewrite M; auto.
Qed.

Lemma fields_join s :
  fold_right append "" (fields delimiters s) = strip_delimiters delimiters s.
Proof.
  induction s as [|c s IH]; simpl; auto.
  destruct (mem c delimiters) eqn:M; simpl; auto.
  destruct (fields delimiters s) as [|f fs]; simpl in *; congruence.
Qed.

Lemma filter_nonempty_join fs :
  fold_right append "" (filter nonempty fs) = fold_right append "" fs.
Proof.
  induction fs as [|f fs IH]; simpl; auto.
  destruct f; simpl; congruence.
Qed.

Lemma tokens_spec_at_delimiter pre c rest :
  free_of delimiters pre = true -> mem c delimiters = true ->
  tokens_spec delimiters (pre ++ String c rest) =
  ((if nonempty pre then [pre] else []) ++ tokens_spec delimiters rest)%list.
Proof.
  intros F M. unfold tokens_spec. rewrite fields_at_delimiter by auto.
  simpl. destruct (nonempty pre); reflexivity.
Qed.

(** The loop, entered at [start] with [tokens] collected so far, adds the
    tokens of the unread text and needs one round per character left, and
    one more. *)
Lemma splitString_loop_spec fuel str start tokens :
  start <= String.length str ->
  String.length str - start < fuel ->
  splitString_loop fuel str delimiters start tokens =
  Ret (tokens ++ tokens_spec delimiters (drop start str))%list.
Proof.
  revert start tokens.
  induction fuel as [|fuel IH]; intros start tokens Hs Hf; [lia|].
  simpl. destruct (find_first_of str delimiters start) as [end_|] eqn:E.
  - destruct (search_hit _ _ _ _ Hs E)
      as (pre & c & rest & D & -> & Hlt & F & M & R).
    rewrite D, tokens_spec_at_delimiter by auto.
    replace (start + String.length pre - start) with (String.length pre)
      by lia.
    rewrite substr_ok, D, substring_prefix by auto.
    destruct pre as [|d pre]; simpl String.length in *.
    + replace (start + 0 =? start)%nat with true
        by (symmetry; apply Nat.eqb_eq; lia).
      simpl. rewrite IH by lia. now rewrite R.
    + replace (start + S (String.length pre) =? start)%nat with false
        by (symmetry; apply Nat.eqb_neq; lia).
      simpl. rewrite IH by lia. rewrite R, <- app_assoc. reflexivity.
  - apply search_miss in E.
    unfold tokens_spec. rewrite fields_free by auto. simpl.
    destruct (Nat.eqb_spec start (String.length str)) as [->|Hne]; simpl.
    + rewrite drop_all. simpl. now rewrite app_nil_r.
    + rewrite substr_from_ok by auto. simpl.
      destruct (drop start str) eqn:D; auto.
      assert (HL := drop_length start str). rewrite D in HL. simpl in HL. lia.
Qed.

Lemma splitString_spec str :
  splitString str delimiters = Ret (tokens_spec delimiters str).
Proof.
  unfold splitString. rewrite splitString_loop_spec by lia. reflexivity.
Qed.

Lemma tokens_spec_nonempty s :
  Forall (fun t => t <> "") (tokens_spec delimiters s).
Proof.
  apply Forall_forall. intros t H. apply filter_In in H as [_ H].
  destruct t; [discriminate | congruence].
Qed.

Lemma tokens_spec_free s :
  Forall (fun t => free_of delimiters t = true) (tokens_spec delimiters s).
Proof.
  apply Forall_forall. intros t H. apply filter_In in H as [H _].
  revert t H. apply Forall_forall, fields_all_free.
Qed.

Lemma tokens_spec_join s :
  fold_right append "" (tokens_spec delimiters s) =
  strip_delimiters delimiters s.
Proof. unfold tokens_spec. now rewrite filter_nonempty_join, fields_join. Qed.

End Tokenizer.

(** C9.  For every text and every set of delimiters the tokenizer returns
    (it neither throws nor runs out of rounds) the non-empty fields between
    the delimiter occurrences, in order: no token is empty, no token holds a
    delimiter, and the tokens laid end to end are the text with its
    delimiters removed.  In particular "a  b" gives a and b, " a " gives a,
    and the empty text gives no token. *)
Theorem splitString_tokens :
  (forall str delimiters : string,
      exists tokens,
        splitString str delimiters = Ret tokens /\
        tokens = filter nonempty (fields delimiters str) /\
        Forall (fun t => t <> "") tokens /\
        Forall (fun t => Cxx.free_of delimiters t = true) tokens /\
        fold_right append "" tokens = strip_delimiters delimiters str) /\
  splitString "a  b" SPACE = Ret ["a"; "b"] /\
  splitString " a " SPACE = Ret ["a"] /\
  splitString "" SPACE = Ret [].
Proof.
  split; [|repeat split; reflexivity].
  intros str delimiters. exists (tokens_spec delimiters str).
  split; [apply splitString_spec|].
  split; [reflexivity|].
  split; [apply tokens_spec_nonempty|].
  split; [apply tokens_spec_free | apply tokens_spec_join].
Qed.

(** ** The variable expander *)

Section Expander.
Import Cxx CxxFacts.
Variable w : World.

Lemma not_a_mark_not_dollar c : mem c "$}" = false -> Ascii.eqb c dollar = false.
Proof.
  unfold dollar. simpl.
  destruct (Ascii.eqb c "$"); [discriminate | reflexivity].
Qed.

(** The first disjunct never holds: when the search stops beyond
    [start + 1], the character at [start] was passed over by it. *)
Lemma dollar_test_false str start end_ c :
  find_first_of str "$}" start = Some end_ ->
  index str start = Ret c ->
  Ascii.eqb c dollar && (start + 1 <? end_)%nat = false.
Proof.
  intros E I.
  destruct (Nat.ltb_spec (start + 1) end_) as [Hlt|]; [|apply andb_false_r].
  rewrite andb_true_r.
  assert (Hs : start <= String.length str).
  { rewrite find_first_of_drop in E.
    destruct (Nat.le_gt_cases start (String.length str)) as [|Hgt]; auto.
    assert (HL := drop_length start str).
    destruct (drop start str); [discriminate | simpl in HL; lia]. }
  destruct (search_hit _ _ _ _ Hs E)
    as (pre & d & rest & D & -> & _ & F & _ & _).
  rewrite index_ok, D in I by auto.
  destruct pre as [|p pre]; simpl in *; [lia|].
  injection I as <-. apply andb_prop in F as [F _].
  apply negb_true_iff in F. now apply not_a_mark_not_dollar.
Qed.

(** Nor the second: the character before the place the search stops was
    passed over as well. *)
Lemma brace_test_false str start end_ c :
  find_first_of str "$}" start = Some end_ ->
  brace_test str start end_ c = Ret false.
Proof.
  intros E. unfold brace_test.
  destruct (Ascii.eqb c open_brace); simpl; auto.
  destruct (Nat.ltb_spec (start + 1) end_) as [Hlt|]; auto.
  assert (Hs : start <= String.length str).
  { rewrite find_first_of_drop in E.
    destruct (Nat.le_gt_cases start (String.length str)) as [|Hgt]; auto.
    assert (HL := drop_length start str).
    destruct (drop start str); [discriminate | simpl in HL; lia]. }
  destruct (search_hit _ _ _ _ Hs E)
    as (pre & d & rest & D & -> & Hend & F & _ & _).
  unfold index.
  replace (start + String.length pre - 1)
    with (start + (String.length pre - 1)) by lia.
  rewrite get_drop, D, get_prefix by lia.
  destruct (get_in_range pre (String.length pre - 1)) as [p G]; [lia|].
  rewrite G. simpl. f_equal.
  apply not_a_mark_not_dollar. eapply free_of_get; eauto.
Qed.

(** The loop, entered at [start] with [result] built so far, appends the
    unread text as it stands. *)
Lemma expandVariables_loop_copies fuel str start result :
  start <= String.length str ->
  String.length str - start < fuel ->
  expandVariables_loop w fuel str start result =
  Ret (result ++ drop start str).
Proof.
  revert start result.
  induction fuel as [|fuel IH]; intros start result Hs Hf; [lia|].
  simpl.
  destruct (find_first_of str "$}" start) as [end_|] eqn:E.
  - rewrite index_ok by auto. simpl.
    erewrite dollar_test_false; eauto using index_ok.
    rewrite brace_test_false by auto. simpl.
    destruct (search_hit _ _ _ _ Hs E)
      as (pre & c & rest & D & -> & Hlt & F & M & R).
    rewrite substr_ok by auto. simpl.
    rewrite IH by lia. rewrite R, D. f_equal.
    replace (start + String.length pre - start + 1)
      with (String.length (pre ++ String c "")) by (rewrite append_length; simpl; lia).
    replace (pre ++ String c rest) with ((pre ++ String c "") ++ rest)
      by (rewrite append_assoc; reflexivity).
    rewrite substring_prefix. now rewrite !append_assoc.
  - destruct (Nat.eqb_spec start (String.length str)) as [->|Hne]; simpl.
    + now rewrite drop_all, append_nil_r.
    + now rewrite substr_from_ok by auto.
Qed.

Lemma expandVariables_id str : expandVariables w str = Ret str.
Proof.
  unfold expandVariables. now rewrite expandVariables_loop_copies by lia.
Qed.

End Expander.

(** C2.  Whatever the environment, the expander returns its argument as it
    was given.  Neither substitution branch can be taken: wherever the search
    for the next dollar or closing brace stops, the dollar test on the
    character at the scan start fails, and so does the brace test. *)
Theorem expandVariables_identity :
  (forall (w : World) (str : string), expandVariables w str = Ret str) /\
  (forall (str : string) (start end_ : nat) (c : ascii),
      Cxx.find_first_of str "$}" start = Some end_ ->
      Cxx.index str start = Ret c ->
      Ascii.eqb c dollar && (start + 1 <? end_)%nat = false /\
      brace_test str start end_ c = Ret false).
Proof.
  split; [exact expandVariables_id|].
  intros str start end_ c E I. split.
  - eapply dollar_test_false; eauto.
  - now apply brace_test_false.
Qed.

Lemma expandVariables_identity_witness :
  Cxx.find_first_of "${NAME}" "$}" 1 = Some 6 /\
  Cxx.index "${NAME}" 1 = Ret open_brace /\
  Ascii.eqb open_brace dollar && (1 + 1 <? 6)%nat = false /\
  brace_test "${NAME}" 1 6 open_brace = Ret false.
Proof.
  split; [reflexivity|]. split; [reflexivity|].
  apply (proj2 expandVariables_identity "${NAME}" 1 6 open_brace);
    reflexivity.
Defined.

(** C1.  With [NAME=bob] the expander leaves both "hello $NAME!" and
    "hello ${NAME}!" untouched; neither comes back as "hello bob!".  With
    [NAME] unset neither comes back as "hello !". *)
Theorem expandVariables_leaves_references :
  expandVariables world_bob "hello $NAME!" = Ret "hello $NAME!" /\
  expandVariables world_bob "hello ${NAME}!" = Ret "hello ${NAME}!" /\
  expandVariables world_bob "hello $NAME!" <> Ret "hello bob!" /\
  expandVariables world_bob "hello ${NAME}!" <> Ret "hello bob!" /\
  getenv world_no_shell "NAME" = None /\
  expandVariables world_no_shell "hello $NAME!" <> Ret "hello !" /\
  expandVariables world_no_shell "hello ${NAME}!" <> Ret "hello !".
Proof.
  repeat split; try reflexivity; vm_compute; discriminate.
Qed.

(** ** Echo *)

Section Echo.
Import Cxx CxxFacts.
Variable w : World.

Lemma vec_index_skipn {A} (v : list A) i a rest :
  skipn i v = a :: rest -> vec_index v i = Ret a /\ skipn (S i) v = rest.
Proof.
  revert v; induction i as [|i IH]; intros v H.
  - destruct v; simpl in H; [discriminate|]. injection H as -> ->. auto.
  - destruct v; simpl in H; [discriminate|]. apply IH in H. exact H.
Qed.

(** [count] rounds from index [from], all of them inside [args]. *)
Lemma echo_loop_spec args count from cout :
  from + count <= List.length args ->
  for_loop count from (echo_body w args) cout =
  Ret (cout ++ spaced (firstn count (skipn from args))).
Proof.
  revert from cout. induction count as [|count IH]; intros from cout H; simpl.
  - now rewrite append_nil_r.
  - destruct (skipn from args) as [|a rest] eqn:Sk.
    + assert (HL := length_skipn from args). rewrite Sk in HL.
      simpl in HL. lia.
    + destruct (vec_index_skipn _ _ _ _ Sk) as [I Sk'].
      unfold echo_body at 1. rewrite I. simpl.
      rewrite expandVariables_id. simpl.
      rewrite IH by lia. rewrite Sk'. simpl.
      now rewrite !append_assoc.
Qed.

Lemma EchoCommand_execute_spec args :
  EchoCommand_execute w args = Ret (spaced (tl args) ++ endl).
Proof.
  unfold EchoCommand_execute.
  destruct args as [|name words]; [reflexivity|].
  rewrite echo_loop_spec by (simpl; lia). simpl.
  now rewrite Nat.sub_0_r, firstn_all.
Qed.

End Echo.

(** C7.  For every token sequence the echo command writes, for each token
    after the first and in their order, the token as the expander returns it
    and one space, and then one newline; a sequence with no token after the
    first writes the newline alone; echo a b writes "a b " and the newline. *)
Theorem EchoCommand_execute_output :
  (forall (w : World) (args : list string),
      exists expanded,
        Forall2 (fun arg e => expandVariables w arg = Ret e) (tl args) expanded /\
        EchoCommand_execute w args =
        Ret (fold_right (fun e rest => e ++ " " ++ rest) "" expanded ++ endl)) /\
  (forall (w : World) (name : string),
      EchoCommand_execute w [name] = Ret endl /\
      EchoCommand_execute w [] = Ret endl) /\
  (forall w : World,
      EchoCommand_execute w ["echo"; "a"; "b"] =
      Ret (String "a" (String " " (String "b" (String " "
             (String (ascii_of_nat 10) EmptyString)))))).
Proof.
  split; [|split].
  - intros w args. exists (tl args). split.
    + induction (tl args); constructor; auto using expandVariables_id.
    + apply EchoCommand_execute_spec.
  - intros w name. now rewrite !EchoCommand_execute_spec.
  - intros w. now rewrite EchoCommand_execute_spec.
Qed.

(** ** The history listing *)

Section History.
Import CxxFacts.

Lemma cut_line_lines c s :
  lines_of (String c s) =
  fst (cut_line (String c s)) :: lines_of (snd (cut_line (String c s))).
Proof.
  revert c; induction s as [|d s IH]; intros c; simpl.
  - destruct (Ascii.eqb c _); reflexivity.
  - destruct (Ascii.eqb c _) eqn:Ec; [reflexivity|].
    specialize (IH d). simpl in IH. rewrite IH.
    destruct (Ascii.eqb d _); simpl; [reflexivity|].
    destruct (cut_line s); reflexivity.
Qed.

Lemma cut_line_shorter c s :
  String.length (snd (cut_line (String c s))) < String.length (String c s).
Proof.
  revert c; induction s as [|d s IH]; intros c; simpl.
  - destruct (Ascii.eqb c _); simpl; lia.
  - destruct (Ascii.eqb c _); simpl; [lia|].
    specialize (IH d). simpl in IH.
    destruct (Ascii.eqb d _); simpl in *; [lia|].
    destruct (cut_line s); simpl in *; lia.
Qed.

(** The loop, entered with [count] for the next line: it lists what is
    unread if the counter can count that far, and overflows if not. *)
Lemma HistoryCommand_loop_spec fuel unread count cout :
  String.length unread < fuel ->
  (count <= INT_MAX)%Z ->
  HistoryCommand_loop fuel unread count cout =
  if (count + Z.of_nat (List.length (lines_of unread)) <=? INT_MAX)%Z
  then Ret (cout ++ numbered count (lines_of unread))
  else Undefined.
Proof.
  revert unread count cout.
  induction fuel as [|fuel IH]; intros unread count cout Hf Hc; [lia|].
  destruct unread as [|c s].
  - cbn [HistoryCommand_loop getline lines_of List.length numbered].
    rewrite append_nil_r.
    destruct (Z.leb_spec (count + Z.of_nat 0) INT_MAX); [reflexivity | lia].
  - cbn [HistoryCommand_loop getline].
    assert (HL := cut_line_lines c s). assert (HS := cut_line_shorter c s).
    destruct (cut_line (String c s)) as [line rest].
    cbn [fst snd] in HL, HS. rewrite HL.
    cbn [List.length numbered]. rewrite Nat2Z.inj_succ.
    destruct (Z.eqb_spec count INT_MAX) as [->|Hne].
    + destruct (Z.leb_spec (INT_MAX + Z.succ (Z.of_nat (List.length (lines_of rest))))
                           INT_MAX); [lia | reflexivity].
    + rewrite IH by lia.
      replace (count + 1 + Z.of_nat (List.length (lines_of rest)))%Z
        with (count + Z.succ (Z.of_nat (List.length (lines_of rest))))%Z by lia.
      destruct (_ <=? _)%Z; [|reflexivity].
      now rewrite !append_assoc.
Qed.

Lemma HistoryCommand_execute_spec w content :
  open_for_reading w HISTORY_FILE = Some content ->
  HistoryCommand_execute w =
  if (Z.of_nat (List.length (lines_of content)) <? INT_MAX)%Z
  then Ret (numbered 1 (lines_of content))
  else Undefined.
Proof.
  intros H. unfold HistoryCommand_execute. rewrite H.
  rewrite HistoryCommand_loop_spec by (unfold INT_MAX; lia).
  destruct (Z.ltb_spec (Z.of_nat (List.length (lines_of content))) INT_MAX);
    destruct (Z.leb_spec (1 + Z.of_nat (List.length (lines_of content))) INT_MAX);
    try lia; reflexivity.
Qed.

Lemma lines_of_newlines n : lines_of (newlines n) = repeat "" n.
Proof. induction n; simpl; congruence. Qed.

End History.

(** C8, as the code has it.  A log that opens with fewer than [INT_MAX]
    lines is listed line by line in file order, each line behind its 1-based
    index, a dot and a space, and each ended by a newline; a log that cannot
    be opened gives no output and no failure. *)
Theorem HistoryCommand_execute_listing :
  (forall (w : World) (content : string),
      open_for_reading w HISTORY_FILE = Some content ->
      (Z.of_nat (List.length (lines_of content)) < INT_MAX)%Z ->
      HistoryCommand_execute w = Ret (numbered 1 (lines_of content))) /\
  (forall w : World,
      open_for_reading w HISTORY_FILE = None ->
      HistoryCommand_execute w = Ret "").
Proof.
  split.
  - intros w content H B. rewrite (HistoryCommand_execute_spec _ _ H).
    destruct (Z.ltb_spec (Z.of_nat (List.length (lines_of content))) INT_MAX);
      [reflexivity | lia].
  - intros w H. unfold HistoryCommand_execute. now rewrite H.
Qed.

Lemma HistoryCommand_execute_listing_witness :
  lines_of ("ls" ++ endl ++ "echo hi" ++ endl ++ "myhistory" ++ endl) =
  ["ls"; "echo hi"; "myhistory"] /\
  HistoryCommand_execute world_log3 =
  Ret ("1. ls" ++ endl ++ "2. echo hi" ++ endl ++ "3. myhistory" ++ endl) /\
  HistoryCommand_execute world_bob = Ret "".
Proof.
  split; [reflexivity|]. split.
  - apply (proj1 HistoryCommand_execute_listing world_log3
             ("ls" ++ endl ++ "echo hi" ++ endl ++ "myhistory" ++ endl));
      [reflexivity | vm_compute; reflexivity].
  - apply (proj2 HistoryCommand_execute_listing world_bob). reflexivity.
Defined.

(** C8 as stated fails on a log of [INT_MAX] lines: the history file opens,
    and incrementing the [int] counter after the last line overflows. *)
Lemma HistoryCommand_execute_overflow :
  open_for_reading world_long_log HISTORY_FILE = Some long_log /\
  Z.of_nat (List.length (lines_of long_log)) = INT_MAX /\
  HistoryCommand_execute world_long_log = Undefined.
Proof.
  assert (L : Z.of_nat (List.length (lines_of long_log)) = INT_MAX).
  { unfold long_log. rewrite lines_of_newlines, repeat_length.
    apply Z2Nat.id. discriminate. }
  split; [reflexivity|]. split; [exact L|].
  rewrite (HistoryCommand_execute_spec world_long_log long_log eq_refl), L.
  reflexivity.
Qed.

(** ** The classifier *)

Section Classifier.

Lemma ends_in_marker_snoc body :
  ends_in_background_marker (body ++ [BACKGROUND_PROCESS]) = true.
Proof.
  unfold ends_in_background_marker.
  destruct (body ++ [BACKGROUND_PROCESS])%list eqn:E.
  - destruct body; discriminate.
  - rewrite <- E, last_last. reflexivity.
Qed.

Lemma ends_in_marker_plain tokens :
  last tokens "" <> BACKGROUND_PROCESS ->
  ends_in_background_marker tokens = false.
Proof.
  intros H. unfold ends_in_background_marker.
  destruct tokens; auto. now apply String.eqb_neq.
Qed.

(** What is built from the tokens [body] left after the marker is gone. *)
Lemma classify_marked token0 rest :
  classify ((token0 :: rest) ++ [BACKGROUND_PROCESS]) =
  Ret (if token0 =? EXIT_COMMAND then ExitCommand
       else if token0 =? "myhistory" then HistoryCommand
       else if token0 =? "echo" then EchoCommand (token0 :: rest)
       else ExternalCommand (token0 :: rest) true).
Proof.
  unfold classify. rewrite ends_in_marker_snoc, removelast_last.
  cbn [Cxx.vec_index nth_error bind].
  repeat destruct (token0 =? _); reflexivity.
Qed.

Lemma classify_unmarked token0 rest :
  last (token0 :: rest) "" <> BACKGROUND_PROCESS ->
  classify (token0 :: rest) =
  Ret (if token0 =? EXIT_COMMAND then ExitCommand
       else if token0 =? "myhistory" then HistoryCommand
       else if token0 =? "echo" then EchoCommand (token0 :: rest)
       else ExternalCommand (token0 :: rest) false).
Proof.
  intros H. unfold classify. rewrite ends_in_marker_plain by auto.
  cbn [Cxx.vec_index nth_error bind].
  repeat destruct (token0 =? _); reflexivity.
Qed.

(** A non-empty sequence ends in the marker or it does not. *)
Lemma marker_or_not (tokens : list string) :
  tokens <> [] ->
  exists body flag,
    (tokens = (body ++ [BACKGROUND_PROCESS])%list /\ flag = true) \/
    (tokens = body /\ last body "" <> BACKGROUND_PROCESS /\ flag = false).
Proof.
  intros H. destruct (String.eqb_spec (last tokens "") BACKGROUND_PROCESS) as [E|N].
  - exists (removelast tokens), true. left. split; auto.
    rewrite <- E. now apply app_removelast_last.
  - exists tokens, false. right. auto.
Qed.

End Classifier.

(** C5.  On a line that gives no token ("", blanks only) and on a line whose
    only token is the background marker, the classifier reads token 0 of an
    empty vector: its outcome is the undefined one, and no condition is
    reported to the caller. *)
Theorem createCommand_empty_undefined :
  splitString "" SPACE = Ret [] /\
  createCommand "" = Undefined /\
  createCommand "   " = Undefined /\
  splitString "&" SPACE = Ret ["&"] /\
  createCommand "&" = Undefined /\
  classify [] = Undefined /\
  classify [BACKGROUND_PROCESS] = Undefined.
Proof. repeat split; reflexivity. Qed.

(** C6.  Every non-empty token sequence is some [body] and the marker (the
    flag is then true), or is [body] itself, not ending in the marker (the
    flag is false).  Take such a sequence whose [body] has a token 0.  If token 0 is exit, myhistory or echo, the classifier builds
    that built-in, never the external command; otherwise it builds the
    external command from [body] and the flag.  "sleep 5 &" gives the
    external command of sleep and 5 in the background, "echo hi" the echo
    command of echo and hi. *)
Theorem classify_variants :
  (forall tokens : list string,
      tokens <> [] ->
      exists body flag,
        (tokens = (body ++ [BACKGROUND_PROCESS])%list /\ flag = true) \/
        (tokens = body /\ last body "" <> BACKGROUND_PROCESS /\ flag = false)) /\
  (forall (tokens body : list string) (flag : bool) (token0 : string)
          (rest : list string),
      (tokens = (body ++ [BACKGROUND_PROCESS])%list /\ flag = true) \/
      (tokens = body /\ last body "" <> BACKGROUND_PROCESS /\ flag = false) ->
      body = token0 :: rest ->
      (token0 = "exit" -> classify tokens = Ret ExitCommand) /\
      (token0 = "myhistory" -> classify tokens = Ret HistoryCommand) /\
      (token0 = "echo" -> classify tokens = Ret (EchoCommand body)) /\
      (token0 <> "exit" -> token0 <> "myhistory" -> token0 <> "echo" ->
       classify tokens = Ret (ExternalCommand body flag))) /\
  createCommand "sleep 5 &" = Ret (ExternalCommand ["sleep"; "5"] true) /\
  createCommand "echo hi" = Ret (EchoCommand ["echo"; "hi"]).
Proof.
  split; [apply marker_or_not|].
  split; [|split; reflexivity].
  intros tokens body flag token0 rest Hs ->.
  assert (C : classify tokens =
              Ret (if token0 =? EXIT_COMMAND then ExitCommand
                   else if token0 =? "myhistory" then HistoryCommand
                   else if token0 =? "echo" then EchoCommand (token0 :: rest)
                   else ExternalCommand (token0 :: rest) flag)).
  { destruct Hs as [[-> ->] | (-> & H & ->)].
    - apply classify_marked.
    - now apply classify_unmarked. }
  rewrite C. repeat split.
  - intros ->. reflexivity.
  - intros ->. reflexivity.
  - intros ->. reflexivity.
  - intros N1 N2 N3.
    apply String.eqb_neq in N1, N2, N3. unfold EXIT_COMMAND.
    now rewrite N1, N2, N3.
Qed.

Lemma classify_variants_witness :
  classify ["sleep"; "5"; "&"] = Ret (ExternalCommand ["sleep"; "5"] true).
Proof.
  refine (proj2 (proj2 (proj2
    (proj1 (proj2 classify_variants) ["sleep"; "5"; "&"] ["sleep"; "5"] true
           "sleep" ["5"] _ _))) _ _ _).
  - left. split; reflexivity.
  - reflexivity.
  - discriminate.
  - discriminate.
  - discriminate.
Defined.

(** C10, as the code has it.  When the tokens before a trailing marker
    start with a built-in name, the classifier drops that one marker and
    builds the built-in of that name from the tokens before it: the exit
    command for exit, the history command for myhistory, the echo command of
    exactly those tokens for echo.  The command holds no flag and executing
    it never forks; it is the command built from those tokens alone whenever
    they do not end in a marker themselves.  "echo a &" gives the echo
    command of echo and a, which writes "a " and a newline. *)
Theorem classify_builtin_ignores_background :
  (forall (token0 : string) (rest : list string),
      In token0 ["exit"; "myhistory"; "echo"] ->
      exists c,
        classify ((token0 :: rest) ++ [BACKGROUND_PROCESS]) = Ret c /\
        (token0 = "exit" -> c = ExitCommand) /\
        (token0 = "myhistory" -> c = HistoryCommand) /\
        (token0 = "echo" -> c = EchoCommand (token0 :: rest)) /\
        (last (token0 :: rest) "" <> BACKGROUND_PROCESS ->
         classify (token0 :: rest) = Ret c /\
         forall (w : World) (fuel fuel' : nat),
           (c' <- classify ((token0 :: rest) ++ [BACKGROUND_PROCESS]) ;;
            execute w fuel c') =
           (c' <- classify (token0 :: rest) ;; execute w fuel' c')) /\
        (forall (w : World) (fuel : nat) (r : Run),
            execute w fuel c <> Ret (Spawned r))) /\
  createCommand "echo a &" = Ret (EchoCommand ["echo"; "a"]) /\
  (forall w : World,
      execute w 0 (EchoCommand ["echo"; "a"]) =
      Ret (Printed (String "a" (String " "
                      (String (ascii_of_nat 10) EmptyString))))).
Proof.
  split; [|split; [reflexivity|]].
  - intros token0 rest Hin.
    assert (M := classify_marked token0 rest).
    assert (U := classify_unmarked token0 rest).
    simpl in Hin.
    destruct Hin as [<-|[<-|[<-|[]]]];
      cbv beta iota delta [String.eqb Ascii.eqb Bool.eqb EXIT_COMMAND] in M, U;
      eexists; (split; [exact M|]);
      (split; [try discriminate; reflexivity|]);
      (split; [try discriminate; reflexivity|]);
      (split; [try discriminate; reflexivity|]);
      (split;
       [intros H; split; [exact (U H)|]; intros w fuel fuel';
        rewrite M, (U H); reflexivity|]);
      intros w fuel r; simpl.
    + discriminate.
    + destruct (HistoryCommand_execute w); discriminate.
    + destruct (EchoCommand_execute w _); discriminate.
  - intros w. unfold execute. now rewrite EchoCommand_execute_spec.
Qed.

Lemma classify_builtin_ignores_background_witness :
  exists c,
    classify ["exit"; "now"; "&"] = Ret c /\
    c = ExitCommand /\
    classify ["exit"; "now"] = Ret c /\
    (forall (w : World) (fuel : nat) (r : Run),
        execute w fuel c <> Ret (Spawned r)).
Proof.
  destruct (proj1 classify_builtin_ignores_background "exit" ["now"])
    as (c & C & E & _ & _ & S & N); [simpl; auto|].
  exists c. split; [exact C|]. split; [now apply E|].
  split; [|exact N]. apply S. discriminate.
Defined.

(** C10 as stated fails on "echo & &": the line ends in the marker and its
    token 0 is echo, but only the last marker is dropped, so with and without
    that marker the line gives two echo commands that write different
    texts. *)
Lemma classify_builtin_second_marker :
  createCommand "echo & &" = Ret (EchoCommand ["echo"; "&"]) /\
  createCommand "echo &" = Ret (EchoCommand ["echo"]) /\
  execute world_bob 0 (EchoCommand ["echo"; "&"]) =
  Ret (Printed (String "&" (String " "
                  (String (ascii_of_nat 10) EmptyString)))) /\
  execute world_bob 0 (EchoCommand ["echo"]) =
  Ret (Printed (String (ascii_of_nat 10) EmptyString)) /\
  (c <- createCommand "echo & &" ;; execute world_bob 0 c) <>
  (c <- createCommand "echo &" ;; execute world_bob 0 c).
Proof.
  repeat split; try reflexivity. vm_compute. discriminate.
Qed.

(** ** The external command *)

Section External.
Import Cxx CxxFacts.

Lemma strip_dollar_total command :
  strip_dollar command =
  Ret (match command with
       | String c tail => if Ascii.eqb c dollar then tail else command
       | EmptyString => EmptyString
       end).
Proof.
  unfold strip_dollar. destruct command as [|c tail]; [reflexivity|].
  unfold index. simpl get. cbn [bind].
  destruct (Ascii.eqb c dollar); [|reflexivity].
  rewrite substr_from_ok by (simpl; lia). reflexivity.
Qed.

Variable w : World.

(** One call, spelled out for a non-empty argument vector. *)
Lemma ExternalCommand_execute_delegates fuel depth arg0 rest bg command :
  fork_succeeds w depth = true ->
  execvp_succeeds w (map c_str (arg0 :: rest)) = false ->
  getenv w (c_str arg0) = None ->
  strip_dollar arg0 = Ret command ->
  ExternalCommand_execute w (S fuel) depth (arg0 :: rest) bg =
  inner <- ExternalCommand_execute w fuel (S depth)
                                   ["/bin/sh"; "-c"; command] bg ;;
  Ret (Forked (negb bg) (Delegated ["/bin/sh"; "-c"; command] inner)).
Proof.
  intros F X G D. cbn [ExternalCommand_execute].
  rewrite F, X, G, D. cbn [negb bind].
  destruct (ExternalCommand_execute w fuel (S depth) _ bg); reflexivity.
Qed.

Hypothesis nothing_executes : forall argv, execvp_succeeds w argv = false.
Hypothesis nothing_is_set : forall name, getenv w name = None.

(** With nothing to execute and no variable set, every child whose [fork]
    succeeded delegates again. *)
Lemma no_shell_never_returns :
  (forall depth, fork_succeeds w depth = true) ->
  forall fuel depth arg0 rest bg,
    ExternalCommand_execute w fuel depth (arg0 :: rest) bg = OutOfFuel.
Proof.
  intros F. induction fuel as [|fuel IH]; intros depth arg0 rest bg;
    [reflexivity|].
  erewrite ExternalCommand_execute_delegates;
    eauto using strip_dollar_total.
  now rewrite IH.
Qed.

Lemma fork_limit_chain limit :
  (forall depth, fork_succeeds w depth = (depth <? limit)%nat) ->
  forall more depth arg0 rest bg fuel,
    depth + more = limit -> more < fuel ->
    exists r,
      ExternalCommand_execute w fuel depth (arg0 :: rest) bg = Ret r /\
      delegations r = more /\ ends_in_fork_failure r = true.
Proof.
  intros F. induction more as [|more IH];
    intros depth arg0 rest bg fuel Hd Hf;
    (destruct fuel as [|fuel]; [lia|]).
  - exists ForkFailed. cbn [ExternalCommand_execute]. rewrite F.
    replace (depth <? limit)%nat with false
      by (symmetry; apply Nat.ltb_ge; lia).
    auto.
  - assert (Hfork : fork_succeeds w depth = true)
      by (rewrite F; apply Nat.ltb_lt; lia).
    rewrite (ExternalCommand_execute_delegates fuel depth arg0 rest bg _
               Hfork (nothing_executes _) (nothing_is_set _)
               (strip_dollar_total arg0)).
    match goal with
    | |- context [ExternalCommand_execute w fuel (S depth) (?a :: ?r) bg] =>
        destruct (IH (S depth) a r bg fuel) as (inner & -> & D & E);
          [lia | lia |]
    end.
    eexists. split; [reflexivity|]. simpl. auto.
Qed.

End External.

(** With the delegated shell invocation executable, one call of [execute]
    at [depth] ends, whatever [fork] does, within one delegation. *)
Lemma one_delegation_when_shell_runs w args bg command fuel depth :
  strip_dollar (hd "" args) = Ret command ->
  execvp_succeeds w (map Cxx.c_str ["/bin/sh"; "-c"; command]) = true ->
  exists r,
    ExternalCommand_execute w (S (S fuel)) depth args bg = Ret r /\
    delegations r <= 1.
Proof.
  intros D X. cbn [ExternalCommand_execute].
  destruct (fork_succeeds w depth); cbn [negb]; [|exists ForkFailed; auto].
  destruct args as [|arg0 rest]; [eexists; split; [reflexivity | simpl; lia]|].
  destruct (execvp_succeeds w (map Cxx.c_str (arg0 :: rest)));
    [eexists; split; [reflexivity | simpl; lia]|].
  destruct (getenv w (Cxx.c_str arg0));
    [eexists; split; [reflexivity | simpl; lia]|].
  simpl hd in D. rewrite D. cbn [bind].
  destruct (fork_succeeds w (S depth)); cbn [negb bind];
    [|eexists; split; [reflexivity | simpl; lia]].
  rewrite X. cbn [bind].
  eexists; split; [reflexivity | simpl; lia].
Qed.

(** C3.  With [HOME=/root] set and "$HOME" not executable, the external
    command of "$HOME" asks [getenv] for the name with its dollar, finds
    nothing, and delegates HOME to the shell: no value is printed.  The same
    command of the bare name HOME does print the value. *)
Theorem ExternalCommand_execute_dollar_home :
  getenv world_home "HOME" = Some "/root" /\
  getenv world_home "$HOME" = None /\
  execvp_succeeds world_home ["$HOME"] = false /\
  ExternalCommand_execute world_home 2 0 ["$HOME"] false =
  Ret (Forked true
         (Delegated ["/bin/sh"; "-c"; "HOME"]
            (Forked true (ImageReplaced ["/bin/sh"; "-c"; "HOME"])))) /\
  ExternalCommand_execute world_home 2 0 ["HOME"] false =
  Ret (Forked true (PrintedVariable ("/root" ++ endl))).
Proof. repeat split; reflexivity. Qed.

(** A shell invocation that cannot be executed, in a world with no variable
    named like the shell: its children hand the shell to the shell. *)
Section ShellUnresolvable.
Variable w : World.
Variable bg : bool.
Hypothesis shell_of_shell_fails : execvp_succeeds w shell_of_shell = false.
Hypothesis no_shell_variable : getenv w "/bin/sh" = None.

Lemma shell_delegates fuel depth x :
  fork_succeeds w depth = true ->
  execvp_succeeds w (map Cxx.c_str ["/bin/sh"; "-c"; x]) = false ->
  ExternalCommand_execute w (S fuel) depth ["/bin/sh"; "-c"; x] bg =
  inner <- ExternalCommand_execute w fuel (S depth) shell_of_shell bg ;;
  Ret (Forked (negb bg) (Delegated shell_of_shell inner)).
Proof.
  intros F X.
  apply (ExternalCommand_execute_delegates w fuel depth "/bin/sh" ["-c"; x]
           bg "/bin/sh" F X no_shell_variable eq_refl).
Qed.

Lemma shell_never_returns :
  (forall depth, fork_succeeds w depth = true) ->
  forall fuel depth x,
    execvp_succeeds w (map Cxx.c_str ["/bin/sh"; "-c"; x]) = false ->
    ExternalCommand_execute w fuel depth ["/bin/sh"; "-c"; x] bg = OutOfFuel.
Proof.
  intros F. induction fuel as [|fuel IH]; intros depth x X; [reflexivity|].
  rewrite shell_delegates by auto.
  unfold shell_of_shell at 1. now rewrite IH.
Qed.

Lemma shell_chain limit :
  (forall depth, fork_succeeds w depth = (depth <? limit)%nat) ->
  forall more depth x fuel,
    execvp_succeeds w (map Cxx.c_str ["/bin/sh"; "-c"; x]) = false ->
    depth + more = limit -> more < fuel ->
    exists r,
      ExternalCommand_execute w fuel depth ["/bin/sh"; "-c"; x] bg = Ret r /\
      delegations r = more /\ ends_in_fork_failure r = true /\
      delegated_vectors r = repeat shell_of_shell more.
Proof.
  intros F. induction more as [|more IH]; intros depth x fuel X Hd Hf;
    (destruct fuel as [|fuel]; [lia|]).
  - exists ForkFailed. cbn [ExternalCommand_execute]. rewrite F.
    replace (depth <? limit)%nat with false
      by (symmetry; apply Nat.ltb_ge; lia).
    auto.
  - rewrite shell_delegates;
      [|rewrite F; apply Nat.ltb_lt; lia | exact X].
    destruct (IH (S depth) "/bin/sh" fuel shell_of_shell_fails)
      as (inner & E & D & K & V); [lia | lia |].
    unfold shell_of_shell at 1. rewrite E.
    eexists. split; [reflexivity|]. simpl. rewrite D, K, V. auto.
Qed.

End ShellUnresolvable.

(** C4, as the code has it.  For every token sequence and flag, the
    fallback path ends within one delegation when the delegated shell
    invocation can be executed.  There is no guard and no command-not-found
    report beyond that.  Take a command that cannot be executed as typed,
    whose shell invocation cannot be executed either, nor the shell's
    invocation of the shell, with no variable named like its first token or
    like the shell.  Its children delegate for as long as [fork] succeeds,
    first the shell invocation of the command and from then on that of the
    shell: the chain ends, after as many delegations as forks succeeded, in
    the failed [fork], and does not end at all where [fork] never fails. *)
Theorem ExternalCommand_execute_delegation :
  (forall (w : World) (args : list string) (bg : bool) (command : string)
          (fuel : nat),
      strip_dollar (hd "" args) = Ret command ->
      execvp_succeeds w (map Cxx.c_str ["/bin/sh"; "-c"; command]) = true ->
      exists r,
        ExternalCommand_execute w (S (S fuel)) 0 args bg = Ret r /\
        delegations r <= 1) /\
  (forall (w : World) (arg0 : string) (rest : list string) (bg : bool)
          (command : string) (limit : nat),
      strip_dollar arg0 = Ret command ->
      execvp_succeeds w (map Cxx.c_str (arg0 :: rest)) = false ->
      execvp_succeeds w (map Cxx.c_str ["/bin/sh"; "-c"; command]) = false ->
      execvp_succeeds w ["/bin/sh"; "-c"; "/bin/sh"] = false ->
      getenv w (Cxx.c_str arg0) = None ->
      getenv w "/bin/sh" = None ->
      (forall depth, fork_succeeds w depth = (depth <? limit)%nat) ->
      exists r,
        ExternalCommand_execute w (S limit) 0 (arg0 :: rest) bg = Ret r /\
        delegations r = limit /\ ends_in_fork_failure r = true /\
        delegated_vectors r =
        match limit with
        | O => []
        | S more => ["/bin/sh"; "-c"; command]
                    :: repeat ["/bin/sh"; "-c"; "/bin/sh"] more
        end) /\
  (forall (w : World) (arg0 : string) (rest : list string) (bg : bool)
          (command : string),
      strip_dollar arg0 = Ret command ->
      execvp_succeeds w (map Cxx.c_str (arg0 :: rest)) = false ->
      execvp_succeeds w (map Cxx.c_str ["/bin/sh"; "-c"; command]) = false ->
      execvp_succeeds w ["/bin/sh"; "-c"; "/bin/sh"] = false ->
      getenv w (Cxx.c_str arg0) = None ->
      getenv w "/bin/sh" = None ->
      (forall depth, fork_succeeds w depth = true) ->
      forall fuel,
        ExternalCommand_execute w fuel 0 (arg0 :: rest) bg = OutOfFuel).
Proof.
  split; [|split].
  - intros w args bg command fuel. apply one_delegation_when_shell_runs.
  - intros w arg0 rest bg command limit D X0 X1 Xs G0 Gs F.
    destruct limit as [|more].
    + exists ForkFailed. cbn [ExternalCommand_execute]. rewrite F. auto.
    + rewrite (ExternalCommand_execute_delegates w (S more) 0 arg0 rest bg
                 command) by (auto; rewrite F; reflexivity).
      destruct (shell_chain w bg Xs Gs (S more) F more 1 command (S more) X1)
        as (inner & E & Dl & K & V); [lia | lia |].
      rewrite E. eexists. split; [reflexivity|].
      simpl. rewrite Dl, K, V. auto.
  - intros w arg0 rest bg command D X0 X1 Xs G0 Gs F fuel.
    destruct fuel as [|fuel]; [reflexivity|].
    rewrite (ExternalCommand_execute_delegates w fuel 0 arg0 rest bg command)
      by auto.
    now rewrite (shell_never_returns w bg Xs Gs F fuel 1 command X1).
Qed.

(** [PATH] is set, and still neither ls nor the shell can be executed. *)
Lemma ExternalCommand_execute_delegation_witness :
  (exists r,
      ExternalCommand_execute world_home 2 0 ["$HOME"] false = Ret r /\
      delegations r <= 1) /\
  (exists r,
      ExternalCommand_execute world_path_fork_limit 4 0 ["ls"; "-l"] false =
      Ret r /\
      delegations r = 3 /\ ends_in_fork_failure r = true /\
      delegated_vectors r =
      [["/bin/sh"; "-c"; "ls"]; ["/bin/sh"; "-c"; "/bin/sh"];
       ["/bin/sh"; "-c"; "/bin/sh"]]) /\
  (forall fuel,
      ExternalCommand_execute world_path_no_shell fuel 0 ["ls"; "-l"] false =
      OutOfFuel).
Proof.
  split; [|split].
  - apply (proj1 ExternalCommand_execute_delegation
             world_home ["$HOME"] false "HOME" 0); reflexivity.
  - apply (proj1 (proj2 ExternalCommand_execute_delegation)
             world_path_fork_limit "ls" ["-l"] false "ls" 3); reflexivity.
  - apply (proj2 (proj2 ExternalCommand_execute_delegation)
             world_path_no_shell "ls" ["-l"] false "ls"); reflexivity.
Defined.

(** C4 as stated fails.  Where nothing can be executed, not even the shell,
    the external command of ls never returns while [fork] succeeds; and
    where the fourth [fork] fails it has delegated three times by then and
    ends in the failed [fork]. *)
Lemma ExternalCommand_execute_unbounded :
  ~ (exists fuel r,
        ExternalCommand_execute world_no_shell fuel 0 ["ls"] false = Ret r) /\
  ExternalCommand_execute world_fork_limit 4 0 ["ls"] true =
  Ret (Forked false (Delegated ["/bin/sh"; "-c"; "ls"]
      (Forked false (Delegated ["/bin/sh"; "-c"; "/bin/sh"]
      (Forked false (Delegated ["/bin/sh"; "-c"; "/bin/sh"] ForkFailed)))))).
Proof.
  split; [|reflexivity].
  intros (fuel & r & H).
  rewrite (no_shell_never_returns world_no_shell) in H;
    [discriminate | reflexivity ..].
Qed.

(** * Further facts *)

(** ** The tokenizer, piece by piece *)

Section TokenizerPieces.
Import Cxx CxxFacts.
Variable delimiters : string.

Lemma fields_not_nil s : fields delimiters s <> [].
Proof.
  destruct s as [|c s]; simpl; [discriminate|].
  destruct (mem c delimiters); [discriminate|].
  destruct (fields delimiters s); discriminate.
Qed.

Lemma fields_across_delimiter a c b :
  mem c delimiters = true ->
  fields delimiters (a ++ String c b) =
  (fields delimiters a ++ fields delimiters b)%list.
Proof.
  intros M. induction a as [|x a IH]; simpl.
  - now rewrite M.
  - destruct (mem x delimiters); [now rewrite IH|].
    rewrite IH. assert (N := fields_not_nil a).
    destruct (fields delimiters a); [contradiction | reflexivity].
Qed.

Lemma tokens_spec_across_delimiter a c b :
  mem c delimiters = true ->
  tokens_spec delimiters (a ++ String c b) =
  (tokens_spec delimiters a ++ tokens_spec delimiters b)%list.
Proof.
  intros M. unfold tokens_spec.
  now rewrite fields_across_delimiter, filter_app.
Qed.

Lemma tokens_spec_single t :
  t <> "" -> free_of delimiters t = true -> tokens_spec delimiters t = [t].
Proof.
  intros N F. unfold tokens_spec. rewrite fields_free by auto.
  destruct t; [contradiction | reflexivity].
Qed.

Lemma tokens_spec_nil_iff s :
  tokens_spec delimiters s = [] <-> all_in delimiters s = true.
Proof.
  unfold tokens_spec. induction s as [|c s IH]; simpl; [tauto|].
  destruct (mem c delimiters); simpl; [exact IH|].
  assert (N := fields_not_nil s).
  destruct (fields delimiters s); [contradiction|].
  simpl. split; discriminate.
Qed.

Lemma tokens_spec_join_with sep tokens :
  mem sep delimiters = true ->
  Forall (fun t => t <> "" /\ free_of delimiters t = true) tokens ->
  tokens_spec delimiters (join_with sep tokens) = tokens.
Proof.
  intros M. induction 1 as [|t ts [N F] _ IH]; [reflexivity|].
  destruct ts as [|t' ts]; [now apply tokens_spec_single|].
  change (join_with sep (t :: t' :: ts))
    with (t ++ String sep (join_with sep (t' :: ts))).
  rewrite tokens_spec_across_delimiter, IH, tokens_spec_single by auto.
  reflexivity.
Qed.

End TokenizerPieces.

(** X1.  A text cut at one delimiter occurrence is tokenized piece by piece:
    the tokens of [a], the delimiter, [b] are the tokens of [a] followed by
    those of [b]; hence a delimiter in front of a text or behind it changes
    nothing. *)
Theorem splitString_across_delimiter :
  forall (a b delimiters : string) (c : ascii),
    Cxx.mem c delimiters = true ->
    (exists ta tb,
        splitString a delimiters = Ret ta /\
        splitString b delimiters = Ret tb /\
        splitString (a ++ String c b) delimiters = Ret (ta ++ tb)%list) /\
    splitString (String c b) delimiters = splitString b delimiters /\
    splitString (a ++ String c "") delimiters = splitString a delimiters.
Proof.
  intros a b delimiters c M. split; [|split].
  - exists (tokens_spec delimiters a), (tokens_spec delimiters b).
    rewrite !splitString_spec. now rewrite tokens_spec_across_delimiter.
  - rewrite !splitString_spec.
    change (String c b) with ("" ++ String c b).
    now rewrite (tokens_spec_across_delimiter delimiters "" c b M).
  - rewrite !splitString_spec.
    rewrite tokens_spec_across_delimiter by auto.
    now rewrite app_nil_r.
Qed.

Lemma splitString_across_delimiter_witness :
  splitString "ls -l" SPACE = Ret (["ls"] ++ ["-l"])%list /\
  splitString " -l" SPACE = splitString "-l" SPACE /\
  splitString "ls " SPACE = splitString "ls" SPACE.
Proof.
  destruct (splitString_across_delimiter "ls" "-l" SPACE " "%char eq_refl)
    as [(ta & tb & Ha & Hb & Hab) [Hl Hr]].
  split; [|split].
  - injection Ha as <-. injection Hb as <-. exact Hab.
  - exact Hl.
  - exact Hr.
Defined.

(** X2.  The tokenizer returns no token at all exactly for the texts made of
    delimiter characters only (the empty text among them). *)
Theorem splitString_nothing_iff :
  forall str delimiters : string,
    splitString str delimiters = Ret [] <-> all_in delimiters str = true.
Proof.
  intros str delimiters. rewrite splitString_spec.
  rewrite <- tokens_spec_nil_iff. split; [now injection 1 | now intros ->].
Qed.

(** X3.  Tokens that are non-empty and hold no delimiter, written one after
    the other with one delimiter character between neighbours, are read back
    by the tokenizer as they were. *)
Theorem splitString_join_with :
  forall (tokens : list string) (delimiters : string) (sep : ascii),
    Cxx.mem sep delimiters = true ->
    Forall (fun t => t <> "" /\ Cxx.free_of delimiters t = true) tokens ->
    splitString (join_with sep tokens) delimiters = Ret tokens.
Proof.
  intros tokens delimiters sep M F.
  rewrite splitString_spec. now rewrite tokens_spec_join_with.
Qed.

Lemma splitString_join_with_witness :
  splitString (join_with " " ["sleep"; "5"; "&"]) SPACE =
  Ret ["sleep"; "5"; "&"].
Proof.
  apply (splitString_join_with ["sleep"; "5"; "&"] SPACE " "%char);
    [reflexivity|].
  repeat constructor; discriminate.
Defined.

(** ** The classifier on whole lines *)

Section Lines.
Import Cxx CxxFacts.

Lemma createCommand_classify input :
  createCommand input = classify (tokens_spec SPACE input).
Proof. unfold createCommand. now rewrite splitString_spec. Qed.

(** The tokens of a line in the two shapes the classifier tells apart. *)
Lemma classify_cases tokens :
  (tokens = [] /\ classify tokens = Undefined) \/
  (tokens = [BACKGROUND_PROCESS] /\ classify tokens = Undefined) \/
  (exists token0 rest flag,
      ((tokens = ((token0 :: rest) ++ [BACKGROUND_PROCESS])%list /\ flag = true) \/
       (tokens = token0 :: rest /\
        last (token0 :: rest) "" <> BACKGROUND_PROCESS /\ flag = false)) /\
      classify tokens =
      Ret (if token0 =? EXIT_COMMAND then ExitCommand
           else if token0 =? "myhistory" then HistoryCommand
           else if token0 =? "echo" then EchoCommand (token0 :: rest)
           else ExternalCommand (token0 :: rest) flag)).
Proof.
  destruct tokens as [|t ts]; [left; split; reflexivity|].
  destruct (marker_or_not (t :: ts)) as (body & flag & [[E ->]|(E & L & ->)]);
    [discriminate | |].
  - destruct body as [|token0 rest].
    + right. left. rewrite E. split; reflexivity.
    + right. right. exists token0, rest, true. rewrite E.
      split; [left; auto | apply classify_marked].
  - subst body. right. right. exists t, ts, false.
    split; [right; auto | now apply classify_unmarked].
Qed.

End Lines.

(** X4.  On every line the classifier either returns a command or reads
    token 0 of an empty vector; it throws nothing and its loops end.  The
    undefined read happens exactly when the line has no token or the marker
    as its only token. *)
Theorem createCommand_outcome :
  forall input : string,
    ((exists c, createCommand input = Ret c) \/
     createCommand input = Undefined) /\
    (createCommand input = Undefined <->
     splitString input SPACE = Ret [] \/
     splitString input SPACE = Ret [BACKGROUND_PROCESS]).
Proof.
  intros input. rewrite createCommand_classify, splitString_spec.
  destruct (classify_cases (tokens_spec SPACE input))
    as [[E C]|[[E C]|(token0 & rest & flag & Sh & C)]]; rewrite C.
  - rewrite E. split; [right; reflexivity|]. split; auto.
  - rewrite E. split; [right; reflexivity|]. split; auto.
  - split; [left; eauto|]. split; [discriminate|].
    intros [H|H]; injection H as H; rewrite H in Sh.
    + destruct Sh as [[Sh _]|[Sh _]]; [destruct rest|]; discriminate.
    + destruct Sh as [[Sh _]|(Sh & L & _)].
      * destruct rest as [|? [|? ?]]; discriminate.
      * injection Sh as <- <-. exfalso. now apply L.
Qed.

(** X5.  An external command the classifier returns for a line holds that
    line's tokens, without the marker when it runs in the background: its
    arguments are not empty, none of them is empty or holds a blank, and the
    first of them is none of the built-in names. *)
Theorem createCommand_external_arguments :
  forall (input : string) (args : list string) (runInBackground : bool),
    createCommand input = Ret (ExternalCommand args runInBackground) ->
    splitString input SPACE =
    Ret (if runInBackground then args ++ [BACKGROUND_PROCESS] else args)%list /\
    (exists name rest,
        args = name :: rest /\
        name <> "exit" /\ name <> "myhistory" /\ name <> "echo") /\
    Forall (fun t => t <> "" /\ Cxx.free_of SPACE t = true) args.
Proof.
  intros input args bg H.
  rewrite createCommand_classify in H. rewrite splitString_spec.
  assert (N := tokens_spec_nonempty SPACE input).
  assert (F := tokens_spec_free SPACE input).
  destruct (classify_cases (tokens_spec SPACE input))
    as [[E C]|[[E C]|(token0 & rest & flag & Sh & C)]];
    rewrite C in H; try discriminate.
  unfold EXIT_COMMAND in H.
  destruct (String.eqb_spec token0 "exit"); [discriminate|].
  destruct (String.eqb_spec token0 "myhistory"); [discriminate|].
  destruct (String.eqb_spec token0 "echo"); [discriminate|].
  injection H as <- <-.
  assert (A : Forall (fun t => t <> "" /\ Cxx.free_of SPACE t = true)
                     (tokens_spec SPACE input)).
  { apply Forall_forall. intros t Ht. split.
    - exact (proj1 (Forall_forall _ _) N t Ht).
    - exact (proj1 (Forall_forall _ _) F t Ht). }
  destruct Sh as [[E ->]|(E & _ & ->)]; rewrite E in *.
  - split; [reflexivity|]. split; [exists token0, rest; auto|].
    apply Forall_app in A. exact (proj1 A).
  - split; [reflexivity|]. split; [exists token0, rest; auto | exact A].
Qed.

Lemma createCommand_external_arguments_witness :
  splitString "sleep 5 &" SPACE = Ret (["sleep"; "5"] ++ ["&"])%list /\
  (exists name rest,
      ["sleep"; "5"] = name :: rest /\
      name <> "exit" /\ name <> "myhistory" /\ name <> "echo") /\
  Forall (fun t => t <> "" /\ Cxx.free_of SPACE t = true) ["sleep"; "5"].
Proof.
  apply (createCommand_external_arguments "sleep 5 &" ["sleep"; "5"] true).
  reflexivity.
Defined.

(** X6.  A line made of echo, a blank and any text whose last token is not
    the marker is classified as the echo command of echo and the text's
    tokens, and executing it writes those tokens with one blank behind each
    and a newline: runs of blanks in the text shrink to one, blanks in front
    vanish. *)
Theorem echo_line_output :
  forall (w : World) (fuel : nat) (text : string) (words : list string),
    splitString text SPACE = Ret words ->
    last words "" <> BACKGROUND_PROCESS ->
    createCommand ("echo " ++ text) = Ret (EchoCommand ("echo" :: words)) /\
    execute w fuel (EchoCommand ("echo" :: words)) =
    Ret (Printed (spaced words ++ endl)).
Proof.
  intros w fuel text words S L.
  rewrite splitString_spec in S. injection S as S.
  split.
  - rewrite createCommand_classify.
    change ("echo " ++ text) with ("echo" ++ String " " text).
    rewrite tokens_spec_across_delimiter by reflexivity.
    rewrite S. change (tokens_spec SPACE "echo") with ["echo"].
    change (["echo"] ++ words)%list with ("echo" :: words).
    rewrite classify_unmarked; [reflexivity|].
    destruct words; [discriminate | exact L].
  - unfold execute. now rewrite EchoCommand_execute_spec.
Qed.

Lemma echo_line_output_witness :
  createCommand "echo   a  b " = Ret (EchoCommand ["echo"; "a"; "b"]) /\
  execute world_bob 0 (EchoCommand ["echo"; "a"; "b"]) =
  Ret (Printed (spaced ["a"; "b"] ++ endl)).
Proof.
  apply (echo_line_output world_bob 0 "  a  b " ["a"; "b"]).
  - reflexivity.
  - discriminate.
Defined.

(** ** The history log, written and read *)

Section Log.
Import Cxx CxxFacts.

Lemma lines_of_entry line rest :
  free_of endl line = true ->
  lines_of (line ++ endl ++ rest) = line :: lines_of rest.
Proof.
  induction line as [|c line IH]; intros F; [reflexivity|].
  simpl in F. apply andb_prop in F as [Fc F].
  simpl lines_of.
  replace (Ascii.eqb c (ascii_of_nat 10)) with false.
  - change (line ++ String (ascii_of_nat 10) rest) with (line ++ endl ++ rest).
    now rewrite IH.
  - apply negb_true_iff in Fc. simpl in Fc.
    destruct (Ascii.eqb c _); [discriminate | reflexivity].
Qed.

Lemma lines_of_logged inputs :
  Forall (fun input => free_of endl input = true) inputs ->
  lines_of (logged inputs) = inputs.
Proof.
  induction 1 as [|input later F _ IH]; [reflexivity|].
  cbn [logged]. now rewrite lines_of_entry, IH.
Qed.

Lemma lines_of_open_end content c :
  Ascii.eqb c (ascii_of_nat 10) = false ->
  lines_of (content ++ String c endl) = lines_of (content ++ String c "").
Proof.
  intros N. induction content as [|x content IH]; simpl.
  - now rewrite N.
  - destruct (Ascii.eqb x _); now rewrite IH.
Qed.

End Log.

(** X7.  What the interpreter's loop writes to the log, each accepted line
    and a newline, the history command reads back entry by entry: for fewer
    than [INT_MAX] lines without a newline in them, the listing of that log
    is those lines, numbered from 1. *)
Theorem HistoryCommand_reads_logged :
  forall (w : World) (inputs : list string),
    Forall (fun input => Cxx.free_of endl input = true) inputs ->
    (Z.of_nat (List.length inputs) < INT_MAX)%Z ->
    open_for_reading w HISTORY_FILE = Some (logged inputs) ->
    lines_of (logged inputs) = inputs /\
    HistoryCommand_execute w = Ret (numbered 1 inputs).
Proof.
  intros w inputs F B O.
  assert (L := lines_of_logged inputs F). split; [exact L|].
  rewrite (HistoryCommand_execute_spec _ _ O), L.
  destruct (Z.ltb_spec (Z.of_nat (List.length inputs)) INT_MAX);
    [reflexivity | lia].
Qed.

Lemma HistoryCommand_reads_logged_witness :
  lines_of (logged ["ls"; "echo hi"; "myhistory"]) =
  ["ls"; "echo hi"; "myhistory"] /\
  HistoryCommand_execute world_log3 =
  Ret (numbered 1 ["ls"; "echo hi"; "myhistory"]).
Proof.
  apply (HistoryCommand_reads_logged world_log3 ["ls"; "echo hi"; "myhistory"]).
  - repeat constructor.
  - vm_compute. reflexivity.
  - reflexivity.
Defined.

(** X8.  A log whose last line lacks its newline is listed as the same log
    with that newline in place. *)
Theorem HistoryCommand_open_last_line :
  forall (w w' : World) (content : string) (c : ascii),
    Ascii.eqb c (ascii_of_nat 10) = false ->
    open_for_reading w HISTORY_FILE = Some (content ++ String c "") ->
    open_for_reading w' HISTORY_FILE = Some (content ++ String c endl) ->
    HistoryCommand_execute w = HistoryCommand_execute w'.
Proof.
  intros w w' content c N O O'.
  rewrite (HistoryCommand_execute_spec _ _ O).
  rewrite (HistoryCommand_execute_spec _ _ O').
  now rewrite lines_of_open_end.
Qed.

(** X9.  On every log the history command either returns its listing or
    overflows its counter; it throws nothing and its loop ends.  It overflows
    exactly on the logs that open with [INT_MAX] lines or more. *)
Theorem HistoryCommand_execute_outcome :
  forall w : World,
    ((exists cout, HistoryCommand_execute w = Ret cout) \/
     HistoryCommand_execute w = Undefined) /\
    (HistoryCommand_execute w = Undefined <->
     exists content,
       open_for_reading w HISTORY_FILE = Some content /\
       (INT_MAX <= Z.of_nat (List.length (lines_of content)))%Z).
Proof.
  intros w. destruct (open_for_reading w HISTORY_FILE) as [content|] eqn:O.
  - rewrite (HistoryCommand_execute_spec _ _ O).
    destruct (Z.ltb_spec (Z.of_nat (List.length (lines_of content))) INT_MAX).
    + split; [left; eauto|]. split; [discriminate|].
      intros (content' & E & B). injection E as <-. lia.
    + split; [right; reflexivity|]. split; eauto.
  - unfold HistoryCommand_execute. rewrite O.
    split; [left; eauto|]. split; [discriminate|].
    intros (content' & E & _). discriminate.
Qed.

Lemma HistoryCommand_open_last_line_witness :
  HistoryCommand_execute (world_with_log "ls") =
  HistoryCommand_execute (world_with_log ("ls" ++ endl)).
Proof.
  apply (HistoryCommand_open_last_line
           (world_with_log "ls") (world_with_log ("ls" ++ endl)) "l" "s"%char);
    reflexivity.
Defined.

(** ** The free function beside the classes *)

Section FreeFunction.
Variable w : World.

Lemma executeCommand_forks fuel depth args bg :
  is_echo_with_arguments args = false ->
  executeCommand w fuel depth args bg =
  r <- ExternalCommand_execute w fuel depth args bg ;; Ret (of_Run r).
Proof.
  revert depth args.
  induction fuel as [|fuel IH]; intros depth args E; [reflexivity|].
  cbn [executeCommand ExternalCommand_execute]. rewrite E.
  destruct (fork_succeeds w depth); cbn [negb]; [|reflexivity].
  destruct args as [|arg0 rest]; [reflexivity|].
  destruct (execvp_succeeds w (map Cxx.c_str (arg0 :: rest))); [reflexivity|].
  destruct (getenv w (Cxx.c_str arg0)); [reflexivity|].
  rewrite strip_dollar_total. cbn [bind].
  rewrite IH by reflexivity.
  destruct (ExternalCommand_execute w fuel (S depth) _ bg); reflexivity.
Qed.

Lemma executeCommand_echoes fuel depth args bg :
  is_echo_with_arguments args = true ->
  executeCommand w (S fuel) depth args bg =
  cout <- EchoCommand_execute w args ;; Ret (Echoed cout).
Proof.
  intros E. cbn [executeCommand]. rewrite E. unfold EchoCommand_execute.
  destruct (for_loop _ _ _ _); reflexivity.
Qed.

End FreeFunction.

(** X12.  The free function [executeCommand] does what the classes do: on
    echo with at least one argument it writes what the echo command writes,
    on every other argument vector it runs as the external command does.
    Echo alone is such another vector: the free function forks for it. *)
Theorem executeCommand_agrees_with_classes :
  (forall (w : World) (fuel depth : nat) (args : list string) (bg : bool),
      is_echo_with_arguments args = true ->
      executeCommand w (S fuel) depth args bg =
      cout <- EchoCommand_execute w args ;; Ret (Echoed cout)) /\
  (forall (w : World) (fuel depth : nat) (args : list string) (bg : bool),
      is_echo_with_arguments args = false ->
      executeCommand w fuel depth args bg =
      r <- ExternalCommand_execute w fuel depth args bg ;; Ret (of_Run r)) /\
  (forall (w : World) (fuel depth : nat) (bg : bool),
      executeCommand w fuel depth ["echo"] bg =
      r <- ExternalCommand_execute w fuel depth ["echo"] bg ;;
      Ret (of_Run r)).
Proof.
  split; [|split].
  - intros. now apply executeCommand_echoes.
  - intros. now apply executeCommand_forks.
  - intros. now apply executeCommand_forks.
Qed.

Lemma executeCommand_agrees_with_classes_witness :
  executeCommand world_home 1 0 ["echo"; "a"; "b"] false =
  Ret (Echoed (spaced ["a"; "b"] ++ endl)) /\
  executeCommand world_home 2 0 ["$HOME"] false =
  Ret (FreeForked true
         (FreeDelegated ["/bin/sh"; "-c"; "HOME"]
            (FreeForked true (FreeImageReplaced ["/bin/sh"; "-c"; "HOME"])))).
Proof.
  split.
  - rewrite (proj1 executeCommand_agrees_with_classes
               world_home 0 0 ["echo"; "a"; "b"] false eq_refl).
    reflexivity.
  - rewrite (proj1 (proj2 executeCommand_agrees_with_classes)
               world_home 2 0 ["$HOME"] false eq_refl).
    reflexivity.
Defined.

(** ** More on the external command *)

Section ExternalMore.
Variable w : World.

Lemma ExternalCommand_execute_waits fuel depth args bg r :
  ExternalCommand_execute w fuel depth args bg = Ret r ->
  all_waited (negb bg) r = true.
Proof.
  revert depth args r.
  induction fuel as [|fuel IH]; intros depth args r H; [discriminate|].
  cbn [ExternalCommand_execute] in H.
  destruct (fork_succeeds w depth); cbn [negb] in H;
    [|injection H as <-; reflexivity].
  destruct args as [|arg0 rest];
    [injection H as <-; simpl; now rewrite eqb_reflx|].
  destruct (execvp_succeeds w (map Cxx.c_str (arg0 :: rest)));
    [injection H as <-; simpl; now rewrite eqb_reflx|].
  destruct (getenv w (Cxx.c_str arg0));
    [injection H as <-; simpl; now rewrite eqb_reflx|].
  rewrite strip_dollar_total in H. cbn [bind] in H.
  destruct (ExternalCommand_execute w fuel (S depth) _ bg) as [inner| | |] eqn:I;
    try discriminate.
  injection H as <-. simpl. rewrite eqb_reflx. simpl.
  now apply IH in I.
Qed.



End ExternalMore.

(** X13.  Whatever comes of an external command, the background flag
    decides at every link of the delegation chain alike: each process that
    forked waited for its child exactly when the command was not to run in
    the background. *)
Theorem ExternalCommand_execute_waits_by_flag :
  forall (w : World) (fuel depth : nat) (args : list string) (bg : bool)
         (r : Run),
    ExternalCommand_execute w fuel depth args bg = Ret r ->
    all_waited (negb bg) r = true.
Proof. exact ExternalCommand_execute_waits. Qed.

Lemma ExternalCommand_execute_waits_by_flag_witness :
  all_waited (negb true)
    (Forked false (Delegated ["/bin/sh"; "-c"; "HOME"]
       (Forked false (ImageReplaced ["/bin/sh"; "-c"; "HOME"])))) = true.
Proof.
  apply (ExternalCommand_execute_waits_by_flag world_home 2 0 ["$HOME"] true).
  reflexivity.
Defined.

(** X14.  When direct execution fails, the arguments behind the first play
    no part any more: the variable is looked up and the shell command is
    made from the first token alone, so two argument vectors with the same
    first token that both fail to execute run alike. *)
Theorem ExternalCommand_execute_fallback_drops_arguments :
  forall (w : World) (fuel depth : nat) (arg0 : string)
         (rest rest' : list string) (bg : bool),
    execvp_succeeds w (map Cxx.c_str (arg0 :: rest)) = false ->
    execvp_succeeds w (map Cxx.c_str (arg0 :: rest')) = false ->
    ExternalCommand_execute w fuel depth (arg0 :: rest) bg =
    ExternalCommand_execute w fuel depth (arg0 :: rest') bg.
Proof.
  intros w fuel depth arg0 rest rest' bg X X'.
  destruct fuel; [reflexivity|].
  cbn [ExternalCommand_execute]. now rewrite X, X'.
Qed.

Lemma ExternalCommand_execute_fallback_drops_arguments_witness :
  ExternalCommand_execute world_home 2 0 ["lss"; "-l"; "/tmp"] false =
  ExternalCommand_execute world_home 2 0 ["lss"] false.
Proof.
  apply (ExternalCommand_execute_fallback_drops_arguments
           world_home 2 0 "lss" ["-l"; "/tmp"] [] false); reflexivity.
Defined.


Lemma ExternalCommand_execute_argv0 w fuel depth args bg r :
  args <> [] ->
  ExternalCommand_execute w fuel depth args bg = Ret r ->
  meets_null_argv r = false.
Proof.
  revert depth args r.
  induction fuel as [|fuel IH]; intros depth args r N H; [discriminate|].
  cbn [ExternalCommand_execute] in H.
  destruct (fork_succeeds w depth); cbn [negb] in H;
    [|injection H as <-; reflexivity].
  destruct args as [|arg0 rest]; [contradiction|].
  destruct (execvp_succeeds w (map Cxx.c_str (arg0 :: rest)));
    [injection H as <-; reflexivity|].
  destruct (getenv w (Cxx.c_str arg0)); [injection H as <-; reflexivity|].
  rewrite strip_dollar_total in H. cbn [bind] in H.
  destruct (ExternalCommand_execute w fuel (S depth) _ bg) as [inner| | |] eqn:I;
    try discriminate.
  injection H as <-. simpl. apply IH in I; [exact I | discriminate].
Qed.

(** X16.  An external command that the classifier returned for a line never
    hands [execvp] a null program name, at no link of its delegation
    chain: the argument vector the classifier builds is not empty, and the
    delegated one never is. *)
Theorem createCommand_external_has_program :
  forall (w : World) (fuel : nat) (input : string) (args : list string)
         (bg : bool) (r : Run),
    createCommand input = Ret (ExternalCommand args bg) ->
    ExternalCommand_execute w fuel 0 args bg = Ret r ->
    meets_null_argv r = false.
Proof.
  intros w fuel input args bg r C E.
  apply (ExternalCommand_execute_argv0 w fuel 0 args bg r); [|exact E].
  rewrite createCommand_classify in C.
  destruct (classify_cases (tokens_spec SPACE input))
    as [[_ K]|[[_ K]|(token0 & rest & flag & _ & K)]];
    rewrite K in C; try discriminate.
  unfold EXIT_COMMAND in C.
  destruct (token0 =? "exit"); [discriminate|].
  destruct (token0 =? "myhistory"); [discriminate|].
  destruct (token0 =? "echo"); [discriminate|].
  injection C as <- _. discriminate.
Qed.

Lemma createCommand_external_has_program_witness :
  meets_null_argv
    (Forked true (Delegated ["/bin/sh"; "-c"; "HOME"]
       (Forked true (ImageReplaced ["/bin/sh"; "-c"; "HOME"])))) = false.
Proof.
  apply (createCommand_external_has_program
           world_home 2 "$HOME" ["$HOME"] false); reflexivity.
Defined.

(** ** The invoker *)

Section InvokerFacts.
Variable w : World.
Variable fuel : nat.

Lemma execute_at_interpreter c : execute_at w fuel 0 c = execute w fuel c.
Proof. destruct c; reflexivity. Qed.

Lemma execute_at_builtin depth c :
  is_external c = false -> execute_at w fuel depth c = execute w fuel c.
Proof. destruct c; [reflexivity .. | discriminate]. Qed.

Lemma offspring_replaced go_on stuck depth fates :
  Forall (eq Replaced) fates -> offspring go_on stuck depth fates = [].
Proof.
  intros H. revert depth. induction H as [|fate later <- _ IH]; intros depth;
    [reflexivity|].
  cbn [offspring]. now rewrite IH.
Qed.

Lemma offspring_go_on go_on go_on' stuck depth fates :
  (forall d, go_on d = go_on' d) ->
  offspring go_on stuck depth fates = offspring go_on' stuck depth fates.
Proof.
  intros H. revert depth. induction fates as [|fate later IH]; intros depth;
    [reflexivity|].
  cbn [offspring]. rewrite IH. destruct fate; try reflexivity. now rewrite H.
Qed.

Lemma kids_of_replaced depth behind queue effects :
  Forall (fun e => Forall (eq Replaced) (born_by e)) effects ->
  kids_of w fuel depth behind queue effects = [].
Proof.
  intros H. revert queue. induction H as [|e es R _ IH]; intros queue;
    destruct queue as [|c rest]; try reflexivity.
  cbn [kids_of]. now rewrite offspring_replaced, IH.
Qed.

(** The loop over commands that come back goes through them in order. *)
Lemma Invoker_loop_returning depth queue effects behind done kids :
  Forall2 (fun c e => execute_at w fuel depth c = Ret e /\
                      forall status, e <> Exited status) queue effects ->
  Invoker_loop w fuel (queue ++ behind) depth done kids =
  Invoker_loop w fuel behind depth (done ++ effects)
               (kids ++ kids_of w fuel depth behind queue effects).
Proof.
  intros H. revert done kids.
  induction H as [|c e queue effects [E N] _ IH]; intros done kids.
  - cbn [kids_of app]. now rewrite !app_nil_r.
  - cbn [app Invoker_loop kids_of]. rewrite E.
    destruct e; [| now destruct (N status) |];
      rewrite IH, <- !app_assoc; reflexivity.
Qed.

Lemma returns_at_interpreter queue effects :
  Forall2 (returns w fuel) queue effects ->
  Forall2 (fun c e => execute_at w fuel 0 c = Ret e /\
                      forall status, e <> Exited status) queue effects.
Proof.
  intros H. eapply Forall2_impl; [|exact H].
  intros c e [E N]. split; [now rewrite execute_at_interpreter | exact N].
Qed.

Lemma returns_at_builtin depth queue effects :
  Forall (fun c => is_external c = false) queue ->
  Forall2 (returns w fuel) queue effects ->
  Forall2 (fun c e => execute_at w fuel depth c = Ret e /\
                      forall status, e <> Exited status) queue effects /\
  Forall (fun e => Forall (eq Replaced) (born_by e)) effects.
Proof.
  intros B H. induction H as [|c e queue effects [E N] _ IH];
    [split; constructor|].
  inversion B as [|? ? Bc Bq]; subst.
  destruct (IH Bq) as [IH1 IH2]. split; constructor; auto.
  - split; [now rewrite execute_at_builtin | exact N].
  - destruct c; try discriminate; cbn [execute] in E.
    + injection E as <-. constructor.
    + destruct (HistoryCommand_execute w); try discriminate.
      injection E as <-. constructor.
    + destruct (EchoCommand_execute w args); try discriminate.
      injection E as <-. constructor.
Qed.



End InvokerFacts.

(** X10.  When every queued command and the new one come back from
    [execute] in the interpreter, the interpreter runs them in queue order,
    the new one last, with one effect for each, and leaves its queue empty.
    If every child born meanwhile was taken over by [execvp] (so also if no
    command forked), no other process runs any of them.  But a child that
    comes back from [execute] runs what is queued behind its command too: for
    an external command in front of built-ins, each such child repeats the
    effects of all of them, and a child that throws leaves the loop with
    the whole queue. *)
Theorem Invoker_executeCommand_in_order :
  (forall (w : World) (fuel : nat) (commandQueue : list Command)
          (command : Command) (effects : list Effect),
      Forall2 (returns w fuel) (commandQueue ++ [command]) effects ->
      exists kids,
        Invoker_executeCommand w fuel commandQueue command =
        Process_of effects [] Returned kids /\
        (Forall (fun e => Forall (eq Replaced) (born_by e)) effects ->
         kids = [])) /\
  (forall (w : World) (fuel : nat) (args : list string) (bg : bool) (r : Run)
          (behind : list Command) (command : Command) (effects : list Effect),
      execute w fuel (ExternalCommand args bg) = Ret (Spawned r) ->
      Forall (fun c => is_external c = false) (behind ++ [command]) ->
      Forall2 (returns w fuel) (behind ++ [command]) effects ->
      Invoker_executeCommand w fuel (ExternalCommand args bg :: behind) command =
      Process_of (Spawned r :: effects) [] Returned
        (offspring (fun _ => Process_of effects [] Returned [])
                   (fun ending =>
                      Process_of []
                        (ExternalCommand args bg :: behind ++ [command])
                        ending [])
                   1 (born r))).
Proof.
  split.
  - intros w fuel queue command effects H.
    exists (kids_of w fuel 0 [] (queue ++ [command]) effects).
    unfold Invoker_executeCommand.
    rewrite <- (app_nil_r (queue ++ [command])) at 1.
    rewrite (Invoker_loop_returning w fuel 0 _ _ [] [] []
               (returns_at_interpreter w fuel _ _ H)).
    split; [reflexivity|]. apply kids_of_replaced.
  - intros w fuel args bg r behind command effects E B H.
    destruct (returns_at_builtin w fuel 0 _ _ B H) as [H0 R].
    unfold Invoker_executeCommand.
    cbn [app Invoker_loop]. rewrite execute_at_interpreter, E.
    rewrite <- (app_nil_r (behind ++ [command])) at 1.
    rewrite (Invoker_loop_returning w fuel 0 _ _ [] _ _ H0).
    rewrite kids_of_replaced, app_nil_r by exact R.
    cbn [Invoker_loop app born_by]. f_equal.
    apply offspring_go_on. intros d.
    destruct (returns_at_builtin w fuel d _ _ B H) as [Hd _].
    rewrite <- (app_nil_r (behind ++ [command])).
    rewrite (Invoker_loop_returning w fuel d _ _ [] [] [] Hd).
    now rewrite kids_of_replaced by exact R.
Qed.

Lemma Invoker_executeCommand_in_order_witness :
  Invoker_executeCommand world_home 1 [ExternalCommand ["HOME"] false]
                         (EchoCommand ["echo"; "a"]) =
  Process_of
    [Spawned (Forked true (PrintedVariable ("/root" ++ endl)));
     Printed (spaced ["a"] ++ endl)]
    [] Returned
    [Process_of [Printed (spaced ["a"] ++ endl)] [] Returned []].
Proof.
  apply (proj2 Invoker_executeCommand_in_order world_home 1 ["HOME"] false
           (Forked true (PrintedVariable ("/root" ++ endl))) []
           (EchoCommand ["echo"; "a"]) [Printed (spaced ["a"] ++ endl)]).
  - reflexivity.
  - repeat constructor.
  - repeat constructor; discriminate.
Defined.


